(** * pykeg/bin/kegboard_daemon.py: the duplicate-suppressing cache and the
    kegboard manager thread

  A shallow embedding of [DuplicateSuppressingCache] and of
  [KegboardManagerThread] together with the properties of the message
  pipeline.

  Conventions.
  - A [datetime.datetime] is the number of microseconds since the epoch and
    a [datetime.timedelta] a number of microseconds, both in [Z]; the
    subtraction of two datetimes and the comparison of two timedeltas are
    then the ones of [Z].
  - The two dictionaries of the cache are finite maps ([gmap]); [d.get(k)]
    is the lookup [d !! k], with [None] for a missing key, and
    [d[k] = x] is the insertion [<[k:=x]> d].
  - [datetime.datetime.now()] reads the wall clock: the reading is an
    explicit argument [now] of every function that reaches it.
  - The readings are the values of a type [V] on which Python's [!=] is the
    negation of equality (the integers of the meter ticks, the numbers of
    the temperature sensors). *)

From Stdlib Require Import ZArith Lia Sorted.
From stdpp Require Import base option list gmap strings.

Local Open Scope Z_scope.

(** ** Time *)

Module datetime.

(** Microseconds since the epoch. *)
Abbreviation datetime := Z (only parsing).

(** Microseconds. *)
Abbreviation timedelta_t := Z (only parsing).

(** [datetime.timedelta(seconds=s)] for an integer [s]. The constructor
    normalises to days, seconds and microseconds and raises
    [OverflowError] when the number of days leaves
    [-999999999 .. 999999999]; [None] stands for that error. *)
Definition timedelta (seconds : Z) : option timedelta_t :=
  let days := seconds `div` 86400 in
  if bool_decide (Z.abs days ≤ 999999999)
  then Some (seconds * 1000000)
  else None.

End datetime.

(** ** Flags *)

Module FLAGS.

(** [gflags.DEFINE_integer('cache_seconds', 60, ...)]. The default argument
    [max_age=FLAGS.cache_seconds] of the constructor is evaluated when the
    class statement runs, at import time, before any command line is
    parsed: what it reads is the declared default. *)
Definition cache_seconds : Z := 60.

End FLAGS.

(** ** DuplicateSuppressingCache *)

Section Cache.

Context {K : Type} `{Countable K}.
Context {V : Type} `{EqDecision V}.

Record DuplicateSuppressingCache : Type := mkCache {
  _max_delta : datetime.timedelta_t;
  _last_reading_time : gmap K datetime.datetime;
  _last_reading_value : gmap K V;
}.

(** [__init__(self, max_age=FLAGS.cache_seconds)]: [None] is the call
    without the argument. *)
Definition __init__ (max_age : option Z) : option DuplicateSuppressingCache :=
  let max_age := default FLAGS.cache_seconds max_age in
  d ← datetime.timedelta max_age;
  Some {| _max_delta := d;
          _last_reading_time := ∅;
          _last_reading_value := ∅ |}.

(** The two assignments shared by the three forwarding branches. *)
Definition record_reading (self : DuplicateSuppressingCache)
    (now : datetime.datetime) (key : K) (value : V) : DuplicateSuppressingCache :=
  {| _max_delta := _max_delta self;
     _last_reading_time := <[key := now]> (_last_reading_time self);
     _last_reading_value := <[key := value]> (_last_reading_value self) |}.

(** [ShouldSuppress(self, key, value)], with the clock reading [now]. The
    result is the updated cache and the returned boolean. [value !=
    last_value] compares with the result of [.get], which is [None] for a
    key without a stored value. *)
Definition ShouldSuppress (self : DuplicateSuppressingCache)
    (now : datetime.datetime) (key : K) (value : V)
    : DuplicateSuppressingCache * bool :=
  let last_time := _last_reading_time self !! key in
  let last_value := _last_reading_value self !! key in
  match last_time with
  | None => (record_reading self now key value, false)
  | Some last_time =>
    if bool_decide (Some value ≠ last_value)
    then (record_reading self now key value, false)
    else
      (* Values are the same *)
      if bool_decide (now - last_time < _max_delta self)
      then (self, true)
      else (record_reading self now key value, false)
  end.

(** A sequence of calls on one cache: each call comes with the clock reading
    it sees. The result is the final cache and the booleans returned, in
    order. *)
Fixpoint run_calls (self : DuplicateSuppressingCache)
    (calls : list (datetime.datetime * K * V))
    : DuplicateSuppressingCache * list bool :=
  match calls with
  | [] => (self, [])
  | (now, key, value) :: rest =>
    let '(self1, suppress) := ShouldSuppress self now key value in
    let '(self2, more) := run_calls self1 rest in
    (self2, suppress :: more)
  end.

(** The clock readings of a sequence of calls. *)
Definition call_times (calls : list (datetime.datetime * K * V))
    : list datetime.datetime :=
  map (λ c, c.1.1) calls.

(** Every stored timestamp is at most every clock reading of [times]. *)
Definition not_after (self : DuplicateSuppressingCache) (times : list Z) : Prop :=
  ∀ key last_time now,
    _last_reading_time self !! key = Some last_time → now ∈ times →
    last_time ≤ now.

End Cache.

Arguments DuplicateSuppressingCache K {_ _} V.

(** ** Queue.Queue

    The standard library's FIFO queue, as a list with the oldest item first:
    [put] appends at the right end, [get] removes from the left end;
    [get(timeout=...)] on a queue that stays empty raises [Queue.Empty],
    which is [None] here. *)

Module Queue.

Definition Queue (A : Type) : Type := list A.

Definition put {A : Type} (q : Queue A) (item : A) : Queue A := q ++ [item].

Definition get {A : Type} (q : Queue A) : option (A * Queue A) :=
  match q with
  | [] => None
  | item :: rest => Some (item, rest)
  end.

End Queue.

(** ** Exceptions, messages and the kegnet client *)

(** [kegnet_client.ClientException] is the one class the manager catches;
    every other exception is [Exception]. Both carry their [str]. *)
Inductive exn : Type :=
  | ClientException (what : string)
  | Exception (what : string).

(** How a call ends: it returns a value or raises. *)
Inductive outcome (A : Type) : Type :=
  | Return (a : A)
  | Raise (e : exn).

Arguments Return {A} a.
Arguments Raise {A} e.

(** The messages of the kegboard reader. The manager looks at the class, and
    for the two classes it knows at the name and the reading; every other
    class is [OtherMessage]. *)
Inductive Message (V : Type) : Type :=
  | MeterStatusMessage (meter_name : string) (meter_reading : V)
  | TemperatureReadingMessage (sensor_name : string) (sensor_reading : V)
  | OtherMessage (kind : string).

Arguments MeterStatusMessage {V} meter_name meter_reading.
Arguments TemperatureReadingMessage {V} sensor_name sensor_reading.
Arguments OtherMessage {V} kind.

(** The two methods of [kegnet_client.KegnetClient] the manager calls. The
    client has a state of its own, and each call may raise. *)
Class KegnetClient (C V : Type) : Type := {
  SendMeterUpdate : C → string → V → outcome unit * C;
  SendThermoUpdate : C → string → V → outcome unit * C;
}.

Inductive client_call (V : Type) : Type :=
  | CallSendMeterUpdate (name : string) (value : V)
  | CallSendThermoUpdate (name : string) (value : V).

Arguments CallSendMeterUpdate {V} name value.
Arguments CallSendThermoUpdate {V} name value.

Inductive level : Type := INFO | WARNING.

(** What a run does to the outside, in order: items taken from the queue,
    calls made on the client (whether they return or raise) and log
    records. *)
Inductive effect (V : Type) : Type :=
  | Dequeued (item : string * Message V)
  | Called (c : client_call V)
  | Logged (lvl : level) (text : string).

Arguments Dequeued {V} item.
Arguments Called {V} c.
Arguments Logged {V} lvl text.

(** ** KegboardManagerThread *)

Section Manager.

Context {V : Type} `{EqDecision V}.
Context {C : Type} `{KegnetClient C V}.

Record KegboardManagerThread : Type := mkManager {
  _client : C;
  _message_queue : Queue.Queue (string * Message V);
  _cache : DuplicateSuppressingCache (string * string) V;
  _quit : bool;
}.

Definition set_client (self : KegboardManagerThread) (c : C) :=
  {| _client := c; _message_queue := _message_queue self;
     _cache := _cache self; _quit := _quit self |}.

Definition set_message_queue (self : KegboardManagerThread)
    (q : Queue.Queue (string * Message V)) :=
  {| _client := _client self; _message_queue := q;
     _cache := _cache self; _quit := _quit self |}.

Definition set_cache (self : KegboardManagerThread)
    (c : DuplicateSuppressingCache (string * string) V) :=
  {| _client := _client self; _message_queue := _message_queue self;
     _cache := c; _quit := _quit self |}.

Definition set_quit (self : KegboardManagerThread) (b : bool) :=
  {| _client := _client self; _message_queue := _message_queue self;
     _cache := _cache self; _quit := b |}.

(** A method of the manager: from the object before the call to how the call
    ends, what it did to the outside, and the object after it. What was
    mutated before a [raise] stays mutated. *)
Definition M (A : Type) : Type :=
  KegboardManagerThread → outcome A * list (effect V) * KegboardManagerThread.

Definition ret {A : Type} (a : A) : M A := λ self, (Return a, [], self).

Definition bind {A B : Type} (m : M A) (k : A → M B) : M B :=
  λ self,
    match m self with
    | (Return a, tr1, self1) =>
      let '(r, tr2, self2) := k a self1 in (r, tr1 ++ tr2, self2)
    | (Raise e, tr1, self1) => (Raise e, tr1, self1)
    end.

(** [try: body / except kegnet_client.ClientException, e: handler(e)]. *)
Definition try_except_ClientException (body : M unit) (handler : string → M unit)
    : M unit :=
  λ self,
    match body self with
    | (Raise (ClientException e), tr1, self1) =>
      let '(r, tr2, self2) := handler e self1 in (r, tr1 ++ tr2, self2)
    | other => other
    end.

Notation "'let!' x ':=' m 'in' k" := (bind m (λ x, k))
  (at level 10, x name, m at level 200, k at level 200).

(** [self._logger.info(text)] and [self._logger.warning(text)]. *)
Definition log (lvl : level) (text : string) : M unit :=
  λ self, (Return tt, [Logged lvl text], self).

(** [self._cache.ShouldSuppress(key, value)]. *)
Definition cache_ShouldSuppress (now : datetime.datetime)
    (key : string * string) (value : V) : M bool :=
  λ self,
    let '(cache, suppress) := ShouldSuppress (_cache self) now key value in
    (Return suppress, [], set_cache self cache).

(** [self._client.SendMeterUpdate(name, value)]. *)
Definition client_SendMeterUpdate (name : string) (value : V) : M unit :=
  λ self,
    let '(r, client) := SendMeterUpdate (_client self) name value in
    (r, [Called (CallSendMeterUpdate name value)], set_client self client).

(** [self._client.SendThermoUpdate(name, value)]. *)
Definition client_SendThermoUpdate (name : string) (value : V) : M unit :=
  λ self,
    let '(r, client) := SendThermoUpdate (_client self) name value in
    (r, [Called (CallSendThermoUpdate name value)], set_client self client).

(** [PostDeviceMessage(self, device_name, device_message)]. *)
Definition PostDeviceMessage (device_name : string) (device_message : Message V)
    (self : KegboardManagerThread) : KegboardManagerThread :=
  set_message_queue self
    (Queue.put (_message_queue self) (device_name, device_message)).

(** [_HandleDeviceMessage(self, device_name, msg)]; [now] is the clock
    reading of the call of [ShouldSuppress], if there is one. *)
Definition _HandleDeviceMessage (now : datetime.datetime)
    (device_name : string) (msg : Message V) : M unit :=
  match msg with
  | MeterStatusMessage meter_name curr_val =>
    (* Flow update: compare to last value and send a message if needed *)
    let! suppress := cache_ShouldSuppress now ("meter", meter_name) curr_val in
    if negb suppress
    then client_SendMeterUpdate meter_name curr_val
    else ret tt
  | TemperatureReadingMessage sensor_name sensor_value =>
    let! suppress :=
      cache_ShouldSuppress now ("thermo", sensor_name) sensor_value in
    if negb suppress
    then client_SendThermoUpdate sensor_name sensor_value
    else ret tt
  | OtherMessage _ => ret tt
  end.

(** [self._message_queue.get(timeout=1.0)] inside its [try]: [None] when
    [Queue.Empty] was raised. *)
Definition message_queue_get : M (option (string * Message V)) :=
  λ self,
    match Queue.get (_message_queue self) with
    | None => (Return None, [], self)
    | Some (item, rest) =>
      (Return (Some item), [Dequeued item], set_message_queue self rest)
    end.

(** The second [try] statement of the loop body of [run]. *)
Definition handle_or_warn (now : datetime.datetime)
    (device_name : string) (device_message : Message V) : M unit :=
  try_except_ClientException
    (_HandleDeviceMessage now device_name device_message)
    (λ e, log WARNING ("Got error during send: " +:+ e)).

(** One evaluation of [while not self._quit: ...] in [run]: the test and,
    when it holds, the body. The result says whether the loop goes on;
    when it does not, the line after the loop is logged and [run] returns. *)
Definition run_iteration (now : datetime.datetime) : M bool :=
  λ self,
    if _quit self
    then (let! _ := log INFO "Exiting main loop." in ret false) self
    else
      (let! got := message_queue_get in
       match got with
       | None => ret true
       | Some (device_name, device_message) =>
         let! _ := handle_or_warn now device_name device_message in
         ret true
       end) self.

(** *** The two threads together

    The manager thread runs [run]; the device thread and the controller act
    on the same object in between. A schedule lists, in the order in which
    they take effect, the passes of the manager's loop, the passes of
    [KegboardDeviceIoThread._MainLoop] (with the message
    [GetNextMessage] returned) and the setting of the stop flag.

    A pass of the manager's loop is one step here: the test of [_quit], the
    [get] and the handling come together, as when nothing is posted and the
    flag is not set while the manager waits in [get]. What happens when the
    flag is set or a message is posted during that wait is the matter of
    the finer steps of [move] below, where the test and the [get] are
    steps of their own. *)

Inductive thread_state : Type :=
  | Running
  | Exited
  | Died (e : exn).

(** The state of the thread after a pass whose handling ended with [r]. *)
Definition after_pass (r : outcome unit) : thread_state :=
  match r with
  | Return _ => Running
  | Raise e => Died e
  end.

Record system : Type := mkSystem {
  manager : KegboardManagerThread;
  manager_thread : thread_state;
}.

Inductive action : Type :=
  | ManagerPass (now : datetime.datetime)
  | DevicePass (msg : Message V)
  | StopRequest.

(** The body of the loop of [_MainLoop], after [GetNextMessage] returned
    [msg]. *)
Definition _MainLoop_pass (msg : Message V)
    (self : KegboardManagerThread) : KegboardManagerThread :=
  PostDeviceMessage "kegboard" msg self.

Definition step (s : system) (a : action) : system * list (effect V) :=
  match a with
  | ManagerPass now =>
    match manager_thread s with
    | Running =>
      match run_iteration now (manager s) with
      | (Return true, tr, self) => (mkSystem self Running, tr)
      | (Return false, tr, self) => (mkSystem self Exited, tr)
      | (Raise e, tr, self) => (mkSystem self (Died e), tr)
      end
    | _ => (s, [])
    end
  | DevicePass msg =>
    (mkSystem (_MainLoop_pass msg (manager s)) (manager_thread s), [])
  | StopRequest => (mkSystem (set_quit (manager s) true) (manager_thread s), [])
  end.

Fixpoint exec (s : system) (sched : list action) : system * list (effect V) :=
  match sched with
  | [] => (s, [])
  | a :: rest =>
    let '(s1, tr1) := step s a in
    let '(s2, tr2) := exec s1 rest in
    (s2, tr1 ++ tr2)
  end.

(** The items the manager took from the queue, in the order of the trace. *)
Definition dequeued (tr : list (effect V)) : list (string * Message V) :=
  omap (λ e, match e with Dequeued item => Some item | _ => None end) tr.

(** The calls made on the client, in the order of the trace. *)
Definition calls (tr : list (effect V)) : list (client_call V) :=
  omap (λ e, match e with Called c => Some c | _ => None end) tr.

(** The items the device thread posts during a schedule, in order. *)
Definition posted (sched : list action) : list (string * Message V) :=
  omap (λ a, match a with DevicePass msg => Some ("kegboard", msg) | _ => None end)
       sched.

(** *** The loop of [run], statement by statement

    Where the manager thread is in [run]: before its first statement, at
    the test of the [while], inside [self._message_queue.get(timeout=1.0)]
    after the test found the stop flag clear, or out of [run], which
    returned or raised. *)
Inductive run_point : Type :=
  | BeforeLoop
  | AtTest
  | InGet
  | RunReturned
  | RunRaised (e : exn).

Record fine_system : Type := mkFine {
  fine_manager : KegboardManagerThread;
  run_at : run_point;
}.

(** The manager thread goes on to its next point: the first log line; the
    test of [self._quit], which enters [get] or leaves the loop and logs
    the last line; the end of [get], by [Queue.Empty] when the queue is
    empty and with the oldest item otherwise, and then the second [try]
    statement on that item. *)
Definition move (now : datetime.datetime) (s : fine_system)
    : fine_system * list (effect V) :=
  let self := fine_manager s in
  match run_at s with
  | BeforeLoop => (mkFine self AtTest, [Logged INFO "Starting main loop."])
  | AtTest =>
    if _quit self
    then (mkFine self RunReturned, [Logged INFO "Exiting main loop."])
    else (mkFine self InGet, [])
  | InGet =>
    match message_queue_get self with
    | (Return (Some (device_name, device_message)), tr, self1) =>
      let '(r, tr2, self2) :=
        handle_or_warn now device_name device_message self1 in
      (mkFine self2 match r with Return _ => AtTest | Raise e => RunRaised e end,
       tr ++ tr2)
    | (Return None, tr, self1) => (mkFine self1 AtTest, tr)
    | (Raise e, tr, self1) => (mkFine self1 (RunRaised e), tr)
    end
  | RunReturned | RunRaised _ => (s, [])
  end.

(** What the three threads do, one at a time. *)
Inductive fine_action : Type :=
  | ManagerMove (now : datetime.datetime)
  | DevicePosts (msg : Message V)
  | ControllerStops.

Definition fine_step (s : fine_system) (a : fine_action)
    : fine_system * list (effect V) :=
  match a with
  | ManagerMove now => move now s
  | DevicePosts msg =>
    (mkFine (_MainLoop_pass msg (fine_manager s)) (run_at s), [])
  | ControllerStops => (mkFine (set_quit (fine_manager s) true) (run_at s), [])
  end.

Fixpoint fine_exec (s : fine_system) (sched : list fine_action)
    : fine_system * list (effect V) :=
  match sched with
  | [] => (s, [])
  | a :: rest =>
    let '(s1, tr1) := fine_step s a in
    let '(s2, tr2) := fine_exec s1 rest in
    (s2, tr1 ++ tr2)
  end.

(** The state of the thread of [step] for a point of [run]. *)
Definition thread_state_at (p : run_point) : thread_state :=
  match p with
  | RunReturned => Exited
  | RunRaised e => Died e
  | _ => Running
  end.

(** The client raises nothing but [ClientException]. *)
Definition raises_only_ClientException : Prop :=
  ∀ (c : C) (name : string) (value : V) (what : string),
    (SendMeterUpdate c name value).1 ≠ Raise (Exception what)
    ∧ (SendThermoUpdate c name value).1 ≠ Raise (Exception what).

End Manager.

Arguments KegboardManagerThread V C : clear implicits.
Arguments system V C : clear implicits.
Arguments action V : clear implicits.
Arguments fine_system V C : clear implicits.
Arguments fine_action V : clear implicits.

(** ** What a sequence of calls forwarded *)

Section CacheHistory.

Context {K : Type} `{Countable K}.
Context {V : Type} `{EqDecision V}.

(** The readings of [calls] for [key] that were not suppressed, each with
    the clock reading of its call, in order; [results] are the booleans the
    calls returned. *)
Definition forwarded (key : K) (calls : list (Z * K * V)) (results : list bool)
    : list (Z * V) :=
  omap (λ cr : Z * K * V * bool,
          if bool_decide (cr.1.1.2 = key) && negb cr.2
          then Some (cr.1.1.1, cr.1.2)
          else None)
       (zip calls results).

(** The keys of the stored timestamps and of the stored values are the
    same. *)
Definition in_step (self : DuplicateSuppressingCache K V) : Prop :=
  dom (_last_reading_time self) = dom (_last_reading_value self).

End CacheHistory.

(** ** The readings behind the calls on the client *)

(** The call a queue item leads to when its reading is not suppressed. *)
Definition reading_call {V : Type} (item : string * Message V)
    : option (client_call V) :=
  match item.2 with
  | MeterStatusMessage meter_name curr_val =>
    Some (CallSendMeterUpdate meter_name curr_val)
  | TemperatureReadingMessage sensor_name sensor_value =>
    Some (CallSendThermoUpdate sensor_name sensor_value)
  | OtherMessage _ => None
  end.

(** The cache key of a message, for the two classes that have one. *)
Definition message_key {V : Type} (msg : Message V) : option (string * string) :=
  match msg with
  | MeterStatusMessage meter_name _ => Some ("meter", meter_name)
  | TemperatureReadingMessage sensor_name _ => Some ("thermo", sensor_name)
  | OtherMessage _ => None
  end.

(** The reading of a message, for the two classes that have one. *)
Definition message_value {V : Type} (msg : Message V) : option V :=
  match msg with
  | MeterStatusMessage _ curr_val => Some curr_val
  | TemperatureReadingMessage _ sensor_value => Some sensor_value
  | OtherMessage _ => None
  end.

(** ** KegboardDeviceIoThread *)

Module KegboardDeviceIoThread.

(** [self._serial_fd] once it is set: the port is open until [close()]. *)
Inductive serial_fd : Type := PortOpen | PortClosed.

(** The fields the methods below use; [_serial_fd] is [None] until
    [_SetupSerial] has opened the port. The reader is outside: what its
    [GetNextMessage] does at each call is an argument of [_MainLoop]. *)
Record thread : Type := mkThread {
  _device_path : string;
  _device_speed : Z;
  _serial_fd : option serial_fd;
}.

(** How far a run of the thread got: it returned, it raised, or it is still
    in its loop after the reads that were given. *)
Inductive loop_end : Type :=
  | LoopReturned
  | LoopRaised (e : exn)
  | LoopRunning.

(** [__init__(self, name, manager, device_path, device_speed)]. *)
Definition __init__ (device_path : string) (device_speed : Z) : thread :=
  {| _device_path := device_path; _device_speed := device_speed;
     _serial_fd := None |}.

(** [_SetupSerial(self)]; [opened] is how [serial.Serial(path, speed)]
    ends. *)
Definition _SetupSerial (opened : outcome unit) (self : thread)
    : outcome unit * list (level * string) * thread :=
  match opened with
  | Return _ =>
    (Return tt, [(INFO, "Setting up serial port...")],
     {| _device_path := _device_path self;
        _device_speed := _device_speed self;
        _serial_fd := Some PortOpen |})
  | Raise e => (Raise e, [(INFO, "Setting up serial port...")], self)
  end.

(** [self._serial_fd.close()]. *)
Definition close (self : thread) : thread :=
  {| _device_path := _device_path self;
     _device_speed := _device_speed self;
     _serial_fd := Some PortClosed |}.

Section Loop.

Context {V : Type} `{EqDecision V}.
Context {C : Type} `{KegnetClient C V}.

(** The passes of [while not self._quit: ...] in [_MainLoop]. Each element
    of [reads] is one pass: the value of [self._quit] at the test and how
    [GetNextMessage] ends when the body is entered. The manager is the
    object the thread posts to. *)
Fixpoint _MainLoop_passes (reads : list (bool * outcome (Message V)))
    (manager : KegboardManagerThread V C)
    : loop_end * list (level * string) * KegboardManagerThread V C :=
  match reads with
  | [] => (LoopRunning, [], manager)
  | (quit, read) :: rest =>
    if quit : bool
    then (LoopReturned, [(INFO, "Reader loop ended.")], manager)
    else
      match read with
      | Raise e => (LoopRaised e, [], manager)
      | Return msg => _MainLoop_passes rest (_MainLoop_pass msg manager)
      end
  end.

(** [_MainLoop(self)]. *)
Definition _MainLoop (reads : list (bool * outcome (Message V)))
    (manager : KegboardManagerThread V C)
    : loop_end * list (level * string) * KegboardManagerThread V C :=
  let '(r, tr, manager1) := _MainLoop_passes reads manager in
  (r, (INFO, "Starting reader loop...") :: tr, manager1).

(** [run(self)]: the setup is outside the [try], the [finally] clause runs
    when [_MainLoop] returned or raised, and what [_MainLoop] raised is
    raised again after it. *)
Definition run (opened : outcome unit)
    (reads : list (bool * outcome (Message V)))
    (self : thread) (manager : KegboardManagerThread V C)
    : loop_end * list (level * string) * thread * KegboardManagerThread V C :=
  match _SetupSerial opened self with
  | (Raise e, tr, self1) => (LoopRaised e, tr, self1, manager)
  | (Return _, tr, self1) =>
    let '(r, tr2, manager1) := _MainLoop reads manager in
    match r with
    | LoopRunning => (LoopRunning, tr ++ tr2, self1, manager1)
    | _ => (r, tr ++ tr2, close self1, manager1)
    end
  end.

(** The messages the loop gets from the reader: those of the passes before
    the first one that sees the stop flag or whose read raises. *)
Fixpoint messages_read (reads : list (bool * outcome (Message V)))
    : list (Message V) :=
  match reads with
  | (false, Return msg) :: rest => msg :: messages_read rest
  | _ => []
  end.

End Loop.

End KegboardDeviceIoThread.

(** ** Concrete data for the examples *)

(** A client whose connection is down for its first [failures_left] calls:
    those raise [ClientException], the later ones return. *)
Record FlakyClient : Type := mkFlaky { failures_left : nat }.

Definition flaky_send (c : FlakyClient) (name : string) (value : Z)
    : outcome unit * FlakyClient :=
  match failures_left c with
  | O => (Return tt, c)
  | S n => (Raise (ClientException "connection lost"), mkFlaky n)
  end.

#[global] Instance FlakyClient_KegnetClient : KegnetClient FlakyClient Z :=
  {| SendMeterUpdate := flaky_send; SendThermoUpdate := flaky_send |}.

Definition seconds (s : Z) : Z := s * 1000000.

(** A cache with a window of 60 seconds that saw 100 on meter flow0 at
    time 0. *)
Definition cache0 : DuplicateSuppressingCache (string * string) Z :=
  {| _max_delta := seconds 60;
     _last_reading_time := {[ ("meter", "flow0") := 0 ]};
     _last_reading_value := {[ ("meter", "flow0") := 100 ]} |}.

(** A fresh cache with the window given. *)
Definition fresh_cache (max_delta : Z)
    : DuplicateSuppressingCache (string * string) Z :=
  {| _max_delta := max_delta;
     _last_reading_time := ∅;
     _last_reading_value := ∅ |}.

(** A manager with a fresh 60 second cache, the queue given and a client
    that fails [n] times. *)
Definition manager0 (n : nat) (q : list (string * Message Z))
    : KegboardManagerThread Z FlakyClient :=
  {| _client := mkFlaky n; _message_queue := q;
     _cache := fresh_cache (seconds 60); _quit := false |}.

Definition flow0 : string * string := ("meter", "flow0").

(** The scenario of the specification: a window of 60 seconds and meter
    flow0 reading 100 at 0 s, 100 at 10 s, 100 at 65 s and 105 at 66 s. *)
Definition scenario : list (Z * (string * string) * Z) :=
  [(seconds 0, flow0, 100); (seconds 10, flow0, 100);
   (seconds 65, flow0, 100); (seconds 66, flow0, 105)].

(** The two items of the queue in the example of a failing send. *)
Definition item_flow0 : string * Message Z :=
  ("kegboard", MeterStatusMessage "flow0" 100).

Definition item_flow1 : string * Message Z :=
  ("kegboard", MeterStatusMessage "flow1" 7).

(** A client whose socket is gone: every call raises an exception that is
    not a [ClientException]. *)
Record BrokenClient : Type := mkBroken { calls_seen : nat }.

Definition broken_send (c : BrokenClient) (name : string) (value : Z)
    : outcome unit * BrokenClient :=
  (Raise (Exception "socket closed"), mkBroken (S (calls_seen c))).

#[global] Instance BrokenClient_KegnetClient : KegnetClient BrokenClient Z :=
  {| SendMeterUpdate := broken_send; SendThermoUpdate := broken_send |}.

Definition thermo0 : string * string := ("thermo", "flow0").

(** Three passes of the device loop: two messages, then the stop flag. *)
Definition reads0 : list (bool * outcome (Message Z)) :=
  [(false, Return (MeterStatusMessage "flow0" 100));
   (false, Return (TemperatureReadingMessage "flow0" 21));
   (true, Return (MeterStatusMessage "flow0" 101))].

(** ** Properties of the cache *)

Section CacheFacts.

Context {K : Type} `{Countable K}.
Context {V : Type} `{EqDecision V}.
Implicit Types (self : DuplicateSuppressingCache K V) (key : K) (value : V).
Implicit Types (now : datetime.datetime).

(** The three branches of [ShouldSuppress], by what the cache holds. *)
Lemma ShouldSuppress_first self now key value :
  _last_reading_time self !! key = None →
  ShouldSuppress self now key value = (record_reading self now key value, false).
Proof. intros Ht. unfold ShouldSuppress. by rewrite Ht. Qed.

Lemma ShouldSuppress_changed self now key value :
  _last_reading_value self !! key ≠ Some value →
  ShouldSuppress self now key value = (record_reading self now key value, false).
Proof.
  intros Hv. unfold ShouldSuppress.
  destruct (_last_reading_time self !! key); [|done].
  by rewrite bool_decide_eq_true_2.
Qed.

Lemma ShouldSuppress_same self now key value last_time :
  _last_reading_time self !! key = Some last_time →
  _last_reading_value self !! key = Some value →
  ShouldSuppress self now key value =
    if bool_decide (now - last_time < _max_delta self)
    then (self, true)
    else (record_reading self now key value, false).
Proof.
  intros Ht Hv. unfold ShouldSuppress. rewrite Ht, Hv.
  by rewrite bool_decide_eq_false_2 by (intros Hne; by apply Hne).
Qed.

(** Whatever the branch, a call either leaves the cache alone and returns
    true, or records the reading and returns false. *)
Lemma ShouldSuppress_cases self now key value :
  ShouldSuppress self now key value = (self, true) ∨
  ShouldSuppress self now key value = (record_reading self now key value, false).
Proof.
  unfold ShouldSuppress.
  destruct (_last_reading_time self !! key); [|by right].
  repeat case_bool_decide; auto.
Qed.

(** After a call the key has a stored value, and it is the value of the
    call. *)
Lemma ShouldSuppress_stores self now key value :
  _last_reading_value (ShouldSuppress self now key value).1 !! key = Some value
  ∧ is_Some (_last_reading_time (ShouldSuppress self now key value).1 !! key).
Proof.
  unfold ShouldSuppress.
  destruct (_last_reading_time self !! key) as [t|] eqn:Ht; simpl.
  - case_bool_decide as Hv; simpl.
    + rewrite !lookup_insert_eq. eauto.
    + assert (_last_reading_value self !! key = Some value) as Hv'.
      { destruct (decide (Some value = _last_reading_value self !! key)); [done|].
        by destruct Hv. }
      case_bool_decide; simpl.
      * rewrite Ht. eauto.
      * rewrite !lookup_insert_eq. eauto.
  - rewrite !lookup_insert_eq. eauto.
Qed.

(** C1: an unchanged value seen again strictly inside the window is
    suppressed, and the call leaves the cache (in particular the stored
    timestamp and value of the key) as it was. *)
Theorem ShouldSuppress_within_window self now key value last_time :
  _last_reading_time self !! key = Some last_time →
  _last_reading_value self !! key = Some value →
  now - last_time < _max_delta self →
  ShouldSuppress self now key value = (self, true).
Proof.
  intros Ht Hv Hlt. rewrite (ShouldSuppress_same _ _ _ _ _ Ht Hv).
  by rewrite bool_decide_eq_true_2.
Qed.

(** C2: a call with [v1] followed by a call with a different [v2] for the
    same key: the second call returns false whatever the two clock readings
    are, and stores [v2] with the clock reading of the second call. *)
Theorem ShouldSuppress_change_forwards self now1 now2 key (v1 v2 : V) :
  v1 ≠ v2 →
  let self1 := (ShouldSuppress self now1 key v1).1 in
  let '(self2, suppress) := ShouldSuppress self1 now2 key v2 in
  suppress = false
  ∧ _last_reading_value self2 !! key = Some v2
  ∧ _last_reading_time self2 !! key = Some now2.
Proof.
  intros Hne self1.
  destruct (ShouldSuppress_stores self now1 key v1) as [Hv _].
  fold self1 in Hv.
  rewrite ShouldSuppress_changed by (rewrite Hv; congruence).
  simpl. by rewrite !lookup_insert_eq.
Qed.

(** C7: an unchanged value seen again exactly one window after the stored
    timestamp is not suppressed: the call returns false and records the
    reading with the new clock reading. *)
Theorem ShouldSuppress_at_boundary self now key value last_time :
  _last_reading_time self !! key = Some last_time →
  _last_reading_value self !! key = Some value →
  now - last_time = _max_delta self →
  ShouldSuppress self now key value = (record_reading self now key value, false).
Proof.
  intros Ht Hv Heq. rewrite (ShouldSuppress_same _ _ _ _ _ Ht Hv).
  rewrite bool_decide_eq_false_2; [done|lia].
Qed.

(** *** Sequences of calls *)

Lemma not_after_fresh (max_delta : Z) times :
  not_after (mkCache (K:=K) (V:=V) max_delta ∅ ∅) times.
Proof. intros key t now Ht. simpl in Ht. by rewrite lookup_empty in Ht. Qed.

(** A call writes no timestamp but the clock reading it saw. *)
Lemma ShouldSuppress_time_written self now key value k :
  _last_reading_time (ShouldSuppress self now key value).1 !! k
    = _last_reading_time self !! k
  ∨ _last_reading_time (ShouldSuppress self now key value).1 !! k = Some now.
Proof.
  destruct (ShouldSuppress_cases self now key value) as [-> | ->]; simpl.
  - by left.
  - destruct (decide (key = k)) as [-> | Hne].
    + right. by rewrite lookup_insert_eq.
    + left. by rewrite lookup_insert_ne.
Qed.

(** A call keeps the window. *)
Lemma ShouldSuppress_max_delta self now key value :
  _max_delta (ShouldSuppress self now key value).1 = _max_delta self.
Proof. by destruct (ShouldSuppress_cases self now key value) as [-> | ->]. Qed.

(** One call under a clock that does not run backwards: no stored timestamp
    decreases, and the stored timestamps stay below the later readings. *)
Lemma ShouldSuppress_time_step self now key value times :
  not_after self (now :: times) →
  StronglySorted Z.le (now :: times) →
  not_after (ShouldSuppress self now key value).1 times
  ∧ ∀ k t, _last_reading_time self !! k = Some t →
      ∃ t', _last_reading_time (ShouldSuppress self now key value).1 !! k = Some t'
            ∧ t ≤ t'.
Proof.
  intros Hna Hs. apply StronglySorted_inv in Hs as [_ Hle].
  rewrite Forall_forall in Hle. split.
  - intros k t n Hk Hn.
    destruct (ShouldSuppress_time_written self now key value k) as [Heq | Heq];
      rewrite Heq in Hk.
    + eapply Hna; [done|]. apply elem_of_cons; by right.
    + injection Hk as <-. by apply Hle.
  - intros k t Hk.
    destruct (ShouldSuppress_time_written self now key value k) as [Heq | Heq];
      rewrite Heq.
    + exists t. split; [done|lia].
    + exists now. split; [done|]. eapply Hna; [done|]. apply elem_of_cons; by left.
Qed.

Lemma run_calls_app self calls1 calls2 :
  run_calls self (calls1 ++ calls2) =
    ((run_calls (run_calls self calls1).1 calls2).1,
     (run_calls self calls1).2 ++ (run_calls (run_calls self calls1).1 calls2).2).
Proof.
  revert self. induction calls1 as [|[[now key] value] calls1 IH]; intros self; simpl.
  - by destruct (run_calls self calls2).
  - destruct (ShouldSuppress self now key value) as [self1 b].
    rewrite IH. by destruct (run_calls self1 calls1).
Qed.

Lemma run_calls_max_delta self calls :
  _max_delta (run_calls self calls).1 = _max_delta self.
Proof.
  revert self. induction calls as [|[[now key] value] calls IH]; intros self; simpl.
  - done.
  - pose proof (ShouldSuppress_max_delta self now key value) as Hd.
    destruct (ShouldSuppress self now key value) as [self1 b].
    specialize (IH self1). destruct (run_calls self1 calls). simpl in *. congruence.
Qed.

(** A sequence of calls under a clock that does not run backwards. *)
Lemma run_calls_time_steps self (calls1 calls2 : list (Z * K * V)) :
  not_after self (call_times (calls1 ++ calls2)) →
  StronglySorted Z.le (call_times (calls1 ++ calls2)) →
  not_after (run_calls self calls1).1 (call_times calls2)
  ∧ ∀ k t, _last_reading_time self !! k = Some t →
      ∃ t', _last_reading_time (run_calls self calls1).1 !! k = Some t' ∧ t ≤ t'.
Proof.
  revert self. induction calls1 as [|[[now key] value] calls1 IH]; intros self; simpl.
  - intros Hna _. split; [done|]. intros k t Hk. exists t. split; [done|lia].
  - intros Hna Hs.
    destruct (ShouldSuppress_time_step self now key value _ Hna Hs) as [Hna1 Hmono].
    apply StronglySorted_inv in Hs as [Hs _].
    destruct (ShouldSuppress self now key value) as [self1 b]. simpl in *.
    destruct (IH self1 Hna1 Hs) as [Hna2 Hmono2].
    destruct (run_calls self1 calls1) as [self2 bs]. simpl in *.
    split; [done|]. intros k t Hk.
    destruct (Hmono k t Hk) as (t1 & Hk1 & Hle1).
    destruct (Hmono2 k t1 Hk1) as (t2 & Hk2 & Hle2).
    exists t2. split; [done|lia].
Qed.

(** C8: the stored timestamps never decrease. A call writes no timestamp
    other than the clock reading it saw; and when the clock readings of a
    sequence of calls on a new cache do not decrease, the timestamp stored
    for a key after a part of the sequence is still there after the whole
    sequence and is then at least as large. *)
Theorem last_reading_time_monotone (max_age : option Z) self0
    (calls1 calls2 : list (Z * K * V)) :
  __init__ max_age = Some self0 →
  StronglySorted Z.le (call_times (calls1 ++ calls2)) →
  (∀ self now key value k,
     _last_reading_time (ShouldSuppress self now key value).1 !! k
       = _last_reading_time self !! k
     ∨ _last_reading_time (ShouldSuppress self now key value).1 !! k = Some now)
  ∧ ∀ k t1,
      _last_reading_time (run_calls self0 calls1).1 !! k = Some t1 →
      ∃ t2, _last_reading_time (run_calls self0 (calls1 ++ calls2)).1 !! k = Some t2
            ∧ t1 ≤ t2.
Proof.
  intros Hinit Hs. split; [apply ShouldSuppress_time_written|].
  assert (not_after self0 (call_times (calls1 ++ calls2))) as Hna.
  { unfold __init__ in Hinit.
    destruct (datetime.timedelta _) as [d|]; [|done].
    injection Hinit as <-. apply not_after_fresh. }
  destruct (run_calls_time_steps self0 calls1 calls2 Hna Hs) as [Hna1 _].
  rewrite run_calls_app. simpl.
  unfold call_times in Hs. rewrite map_app in Hs.
  assert (StronglySorted Z.le (call_times ([] ++ calls2))) as Hs2.
  { clear -Hs. induction (map _ calls1) as [|a l IH]; [done|].
    apply IH. simpl in Hs. by apply StronglySorted_inv in Hs as [? _]. }
  assert (not_after (run_calls self0 calls1).1 (call_times (calls2 ++ []))) as Hna2.
  { by rewrite app_nil_r. }
  intros k t1 Hk.
  exact (proj2 (run_calls_time_steps _ calls2 [] Hna2
                  ltac:(by rewrite app_nil_r)) k t1 Hk).
Qed.

(** With a window of zero and stored timestamps that are not in the future,
    no call is suppressed. *)
Lemma run_calls_zero_window self (calls : list (Z * K * V)) :
  _max_delta self = 0 →
  not_after self (call_times calls) →
  StronglySorted Z.le (call_times calls) →
  Forall (λ suppress, suppress = false) (run_calls self calls).2.
Proof.
  revert self. induction calls as [|[[now key] value] calls IH]; intros self; simpl.
  - intros. constructor.
  - intros Hd Hna Hs.
    destruct (ShouldSuppress_time_step self now key value _ Hna Hs) as [Hna1 _].
    pose proof (ShouldSuppress_max_delta self now key value) as Hd1.
    assert ((ShouldSuppress self now key value).2 = false) as Hb.
    { unfold ShouldSuppress.
      destruct (_last_reading_time self !! key) as [t|] eqn:Ht; [|done].
      case_bool_decide; [done|]. rewrite bool_decide_eq_false_2; [done|].
      assert (t ≤ now) by (eapply Hna; [done|apply elem_of_cons; by left]). lia. }
    apply StronglySorted_inv in Hs as [Hs _].
    destruct (ShouldSuppress self now key value) as [self1 b]. simpl in *.
    specialize (IH self1 ltac:(congruence) Hna1 Hs).
    destruct (run_calls self1 calls) as [self2 bs]. simpl in *.
    constructor; done.
Qed.

(** C3, amended: a cache built with a window of zero suppresses nothing as
    long as the clock readings of the calls do not decrease: every call
    returns false. *)
Theorem zero_window_never_suppresses self0 (calls : list (Z * K * V)) :
  __init__ (Some 0) = Some self0 →
  StronglySorted Z.le (call_times calls) →
  Forall (λ suppress, suppress = false) (run_calls self0 calls).2.
Proof.
  intros Hinit Hs. injection Hinit as <-.
  apply run_calls_zero_window; [done|apply not_after_fresh|done].
Qed.

End CacheFacts.

(** ** Properties of the manager *)

Section ManagerFacts.

Context {V : Type} `{EqDecision V}.
Context {C : Type} `{KegnetClient C V}.
Implicit Types (self : KegboardManagerThread V C) (msg : Message V).
Implicit Types (now : Z) (device_name : string) (s : system V C).

(** C5: a meter reading is passed to [SendMeterUpdate] exactly when
    [ShouldSuppress] on the key [("meter", name)] returns false, a
    temperature reading to [SendThermoUpdate] exactly when
    [ShouldSuppress] on the key [("thermo", name)] returns false; a
    suppressed reading leaves no call, and the cache is in both cases the
    one [ShouldSuppress] returns. *)
Theorem HandleDeviceMessage_forwards_iff_not_suppressed self now device_name
    (name : string) (value : V) :
  (let '(cache, suppress) :=
     ShouldSuppress (_cache self) now ("meter", name) value in
   let '(r, tr, self1) :=
     _HandleDeviceMessage now device_name (MeterStatusMessage name value) self in
   _cache self1 = cache
   ∧ tr = (if suppress then [] else [Called (CallSendMeterUpdate name value)])
   ∧ (suppress = true → r = Return tt ∧ _client self1 = _client self)
   ∧ (suppress = false →
        (r, _client self1) = SendMeterUpdate (_client self) name value))
  ∧
  (let '(cache, suppress) :=
     ShouldSuppress (_cache self) now ("thermo", name) value in
   let '(r, tr, self1) :=
     _HandleDeviceMessage now device_name (TemperatureReadingMessage name value) self in
   _cache self1 = cache
   ∧ tr = (if suppress then [] else [Called (CallSendThermoUpdate name value)])
   ∧ (suppress = true → r = Return tt ∧ _client self1 = _client self)
   ∧ (suppress = false →
        (r, _client self1) = SendThermoUpdate (_client self) name value)).
Proof.
  split.
  - unfold _HandleDeviceMessage, bind, cache_ShouldSuppress.
    destruct (ShouldSuppress (_cache self) now ("meter", name) value)
      as [cache [|]]; simpl.
    + repeat split; done.
    + unfold client_SendMeterUpdate. simpl.
      destruct (SendMeterUpdate (_client self) name value) as [[[]|e] c]; simpl;
        repeat split; done.
  - unfold _HandleDeviceMessage, bind, cache_ShouldSuppress.
    destruct (ShouldSuppress (_cache self) now ("thermo", name) value)
      as [cache [|]]; simpl.
    + repeat split; done.
    + unfold client_SendThermoUpdate. simpl.
      destruct (SendThermoUpdate (_client self) name value) as [[[]|e] c]; simpl;
        repeat split; done.
Qed.

(** C6: a message of any other class: the handling returns without an
    error, makes no call, logs nothing and leaves the manager, its cache
    included, as it was; so does the pass of the loop that takes such a
    message from the queue, apart from taking it. *)
Theorem HandleDeviceMessage_other_ignored self now device_name (kind : string) :
  _HandleDeviceMessage now device_name (OtherMessage kind) self
    = (Return tt, [], self)
  ∧ handle_or_warn now device_name (OtherMessage kind) self
    = (Return tt, [], self).
Proof. split; reflexivity. Qed.

(** Handling a message touches neither the queue nor the stop flag. *)
Lemma HandleDeviceMessage_frame self now device_name msg :
  _message_queue (_HandleDeviceMessage now device_name msg self).2
    = _message_queue self
  ∧ _quit (_HandleDeviceMessage now device_name msg self).2 = _quit self.
Proof.
  destruct msg as [n v|n v|k]; simpl; [| |done].
  - unfold bind, cache_ShouldSuppress.
    destruct (ShouldSuppress _ _ _ _) as [cache [|]]; simpl; [done|].
    unfold client_SendMeterUpdate. simpl.
    by destruct (SendMeterUpdate _ _ _) as [[[]|e] c].
  - unfold bind, cache_ShouldSuppress.
    destruct (ShouldSuppress _ _ _ _) as [cache [|]]; simpl; [done|].
    unfold client_SendThermoUpdate. simpl.
    by destruct (SendThermoUpdate _ _ _) as [[[]|e] c].
Qed.

Lemma handle_or_warn_frame self now device_name msg :
  _message_queue (handle_or_warn now device_name msg self).2
    = _message_queue self
  ∧ _quit (handle_or_warn now device_name msg self).2 = _quit self.
Proof.
  pose proof (HandleDeviceMessage_frame self now device_name msg) as Hf.
  unfold handle_or_warn, try_except_ClientException.
  by destruct (_HandleDeviceMessage now device_name msg self)
    as [[[[]|[e|e]] tr] self1].
Qed.

(** A pass of the loop of a running manager that is not asked to stop and
    has an item in its queue: the item is taken and handled. *)
Lemma step_ManagerPass_item self now device_name msg rest :
  _quit self = false →
  _message_queue self = (device_name, msg) :: rest →
  step (mkSystem self Running) (ManagerPass now) =
    let '(r, tr, self1) :=
      handle_or_warn now device_name msg (set_message_queue self rest) in
    (mkSystem self1 (after_pass r), Dequeued (device_name, msg) :: tr).
Proof.
  intros Hq Hqueue. unfold step, run_iteration. simpl. rewrite Hq.
  unfold bind, message_queue_get. rewrite Hqueue. simpl.
  destruct (handle_or_warn _ _ _ _) as [[[[]|e] tr] self1]; simpl.
  - by rewrite app_nil_r.
  - done.
Qed.

(** C4: the manager is running with message k and message k+1 at the head
    of its queue, and handling message k raises a [ClientException] (which
    only a send can raise). Then the pass of the loop that takes message k
    logs the warning and leaves the thread running, and the next pass takes
    message k+1 and handles it as any message is handled. *)
Theorem send_failure_isolated self now now' device_name msg device_name' msg'
    rest (e : string) tr self1 :
  _quit self = false →
  _message_queue self = (device_name, msg) :: (device_name', msg') :: rest →
  _HandleDeviceMessage now device_name msg
    (set_message_queue self ((device_name', msg') :: rest))
    = (Raise (ClientException e), tr, self1) →
  step (mkSystem self Running) (ManagerPass now)
    = (mkSystem self1 Running,
       Dequeued (device_name, msg) :: tr
         ++ [Logged WARNING ("Got error during send: " +:+ e)])
  ∧ step (mkSystem self1 Running) (ManagerPass now')
    = (let '(r, tr', self2) :=
         handle_or_warn now' device_name' msg' (set_message_queue self1 rest) in
       (mkSystem self2 (after_pass r), Dequeued (device_name', msg') :: tr')).
Proof.
  intros Hq Hqueue Hraise.
  pose proof (HandleDeviceMessage_frame
                (set_message_queue self ((device_name', msg') :: rest))
                now device_name msg) as [Hfq Hfquit].
  rewrite Hraise in Hfq, Hfquit. simpl in Hfq, Hfquit.
  split.
  - rewrite (step_ManagerPass_item _ _ _ _ _ Hq Hqueue).
    unfold handle_or_warn, try_except_ClientException. by rewrite Hraise.
  - apply step_ManagerPass_item; congruence.
Qed.

(** C10: the device name has no part in the handling: with two device names
    the handling of a message ends the same way, makes the same calls and
    leaves the same manager; and a pass of the loop over two queues whose
    first items differ in the device name only ends the same way, with the
    same calls, the same cache and the same client. *)
Theorem device_name_irrelevant self now (device_name1 device_name2 : string)
    msg rest :
  _HandleDeviceMessage now device_name1 msg self
    = _HandleDeviceMessage now device_name2 msg self
  ∧ (let r1 := run_iteration now
                 (set_message_queue self ((device_name1, msg) :: rest)) in
     let r2 := run_iteration now
                 (set_message_queue self ((device_name2, msg) :: rest)) in
     r1.1.1 = r2.1.1
     ∧ calls r1.1.2 = calls r2.1.2
     ∧ _cache r1.2 = _cache r2.2
     ∧ _client r1.2 = _client r2.2).
Proof.
  split; [by destruct msg|].
  unfold run_iteration. simpl. destruct (_quit self); [done|].
  unfold bind, message_queue_get; simpl.
  change (set_message_queue (set_message_queue self ((device_name1, msg) :: rest)) rest)
    with (set_message_queue self rest).
  change (set_message_queue (set_message_queue self ((device_name2, msg) :: rest)) rest)
    with (set_message_queue self rest).
  assert (handle_or_warn now device_name1 msg (set_message_queue self rest)
          = handle_or_warn now device_name2 msg (set_message_queue self rest))
    as -> by (by destruct msg).
  by destruct (handle_or_warn _ _ _ _) as [[[[]|e] tr] self1].
Qed.

(** *** The queue between the two threads *)

Lemma HandleDeviceMessage_dequeued self now device_name msg :
  dequeued (_HandleDeviceMessage now device_name msg self).1.2 = [].
Proof.
  destruct msg as [n v|n v|k]; simpl; [| |done].
  - unfold bind, cache_ShouldSuppress.
    destruct (ShouldSuppress _ _ _ _) as [cache [|]]; simpl; [done|].
    unfold client_SendMeterUpdate. simpl.
    by destruct (SendMeterUpdate _ _ _) as [[[]|e] c].
  - unfold bind, cache_ShouldSuppress.
    destruct (ShouldSuppress _ _ _ _) as [cache [|]]; simpl; [done|].
    unfold client_SendThermoUpdate. simpl.
    by destruct (SendThermoUpdate _ _ _) as [[[]|e] c].
Qed.

Lemma dequeued_app (tr1 tr2 : list (effect V)) :
  dequeued (tr1 ++ tr2) = dequeued tr1 ++ dequeued tr2.
Proof. unfold dequeued. apply omap_app. Qed.

Lemma handle_or_warn_dequeued self now device_name msg :
  dequeued (handle_or_warn now device_name msg self).1.2 = [].
Proof.
  pose proof (HandleDeviceMessage_dequeued self now device_name msg) as Hd.
  unfold handle_or_warn, try_except_ClientException.
  destruct (_HandleDeviceMessage now device_name msg self)
    as [[[[]|[e|e]] tr] self1]; simpl in *; try done.
  rewrite dequeued_app, Hd. done.
Qed.

(** One step of a schedule: what was taken from the queue followed by what
    is left in it is what was in it followed by what was posted, and a pass
    of the manager takes one item at most. *)
Lemma step_queue s (a : action V) :
  dequeued (step s a).2 ++ _message_queue (manager (step s a).1)
    = _message_queue (manager s) ++ posted [a]
  ∧ (length (dequeued (step s a).2) ≤ 1)%nat.
Proof.
  destruct s as [self st]. destruct a as [now|msg|]; simpl.
  - destruct st; simpl; try (rewrite app_nil_r; split; [done|lia]).
    unfold run_iteration. destruct (_quit self); simpl.
    { rewrite app_nil_r. split; [done|lia]. }
    unfold bind, message_queue_get.
    destruct (_message_queue self) as [|[device_name msg] rest] eqn:Hqueue; simpl.
    { rewrite Hqueue. split; [done|lia]. }
    pose proof (handle_or_warn_dequeued (set_message_queue self rest)
                  now device_name msg) as Hd.
    pose proof (handle_or_warn_frame (set_message_queue self rest)
                  now device_name msg) as [Hf _].
    destruct (handle_or_warn _ _ _ _) as [[[[]|e] tr] self1]; simpl in *.
    + rewrite app_nil_r, Hd, Hf. rewrite app_nil_r. split; [done|simpl; lia].
    + rewrite Hd, Hf. rewrite app_nil_r. split; [done|simpl; lia].
  - split; [done|lia].
  - rewrite app_nil_r. split; [done|lia].
Qed.

Lemma posted_cons (a : action V) sched :
  posted (a :: sched) = posted [a] ++ posted sched.
Proof. unfold posted. simpl. by destruct a. Qed.

(** Over a schedule: what was taken from the queue followed by what is left
    in it is what was in it followed by what was posted. *)
Lemma exec_queue s (sched : list (action V)) :
  dequeued (exec s sched).2 ++ _message_queue (manager (exec s sched).1)
    = _message_queue (manager s) ++ posted sched.
Proof.
  revert s. induction sched as [|a sched IH]; intros s.
  - simpl. by rewrite app_nil_r.
  - rewrite posted_cons. cbn [exec].
    destruct (step_queue s a) as [Hstep _].
    destruct (step s a) as [s1 tr1]. specialize (IH s1).
    destruct (exec s1 sched) as [s2 tr2]. cbn [fst snd] in *.
    rewrite dequeued_app, <- app_assoc, IH.
    by rewrite !app_assoc, Hstep.
Qed.

Lemma exec_app s (sched1 sched2 : list (action V)) :
  exec s (sched1 ++ sched2) =
    ((exec (exec s sched1).1 sched2).1,
     (exec s sched1).2 ++ (exec (exec s sched1).1 sched2).2).
Proof.
  revert s. induction sched1 as [|a sched1 IH]; intros s; simpl.
  - by destruct (exec s sched2).
  - destruct (step s a) as [s1 tr1]. rewrite IH.
    destruct (exec s1 sched1) as [s2 tr2]. simpl. by rewrite app_assoc.
Qed.

(** When the client raises nothing but [ClientException], handling returns. *)
Lemma handle_or_warn_returns self now device_name msg :
  raises_only_ClientException (C:=C) (V:=V) →
  (handle_or_warn now device_name msg self).1.1 = Return tt.
Proof.
  intros Hc. unfold handle_or_warn, try_except_ClientException.
  destruct msg as [n v|n v|k]; simpl; [| |done].
  - unfold bind, cache_ShouldSuppress.
    destruct (ShouldSuppress _ _ _ _) as [cache [|]]; simpl; [done|].
    unfold client_SendMeterUpdate. simpl.
    destruct (SendMeterUpdate (_client self) n v) as [[[]|[e|e]] c] eqn:Hs;
      simpl; try done.
    by destruct (Hc (_client self) n v e) as [[] _]; rewrite Hs.
  - unfold bind, cache_ShouldSuppress.
    destruct (ShouldSuppress _ _ _ _) as [cache [|]]; simpl; [done|].
    unfold client_SendThermoUpdate. simpl.
    destruct (SendThermoUpdate (_client self) n v) as [[[]|[e|e]] c] eqn:Hs;
      simpl; try done.
    by destruct (Hc (_client self) n v e) as [_ []]; rewrite Hs.
Qed.

(** With such a client and without a stop request, as many passes as there
    are items in the queue take all of them, in the order of the queue, and
    the thread is still running. *)
Lemma manager_drains_queue self (nows : list Z) :
  raises_only_ClientException (C:=C) (V:=V) →
  _quit self = false →
  length nows = length (_message_queue self) →
  let '(s1, tr) := exec (mkSystem self Running) (map ManagerPass nows) in
  dequeued tr = _message_queue self
  ∧ _message_queue (manager s1) = []
  ∧ manager_thread s1 = Running.
Proof.
  intros Hc. revert self. induction nows as [|now nows IH]; intros self Hq Hlen.
  - simpl in *. destruct (_message_queue self); [done|discriminate].
  - destruct (_message_queue self) as [|[device_name msg] rest] eqn:Hqueue;
      [discriminate|].
    cbn [map exec]. rewrite (step_ManagerPass_item _ _ _ _ _ Hq Hqueue).
    pose proof (handle_or_warn_returns (set_message_queue self rest)
                  now device_name msg Hc) as Hr.
    pose proof (handle_or_warn_dequeued (set_message_queue self rest)
                  now device_name msg) as Hd.
    pose proof (handle_or_warn_frame (set_message_queue self rest)
                  now device_name msg) as [Hfq Hfquit].
    destruct (handle_or_warn _ _ _ _) as [[r tr] self1]. simpl in *. subst r.
    simpl. specialize (IH self1 ltac:(congruence) ltac:(rewrite Hfq; congruence)).
    destruct (exec _ _) as [s2 tr2]. destruct IH as (IH1 & IH2 & IH3).
    change (Dequeued (device_name, msg) :: tr ++ tr2)
      with ([Dequeued (device_name, msg)] ++ tr ++ tr2).
    rewrite !dequeued_app, Hd, IH1, Hfq. done.
Qed.

(** C9: the queue between the two threads is first in, first out.
    - Over every schedule of the two threads, the items the manager took
      from the queue, in the order in which it took them, followed by the
      items still in the queue, are the items that were in the queue at the
      start followed by the items the device thread posted, in the order in
      which it posted them.
    - A pass of the manager's loop takes one item at most; and a pass of a
      running manager whose stop flag is clear and whose queue is not empty
      does take an item: the oldest one, and the queue keeps the others.
    - When after a schedule the manager is still running with its stop flag
      clear, and the client raises nothing but [ClientException], then as
      many further passes as items are left take all of them: the manager
      has then seen every item that was queued or posted, each once, in the
      order of posting, and the queue is empty. *)
Theorem fifo_preserved s (sched : list (action V)) (nows : list Z) :
  dequeued (exec s sched).2 ++ _message_queue (manager (exec s sched).1)
    = _message_queue (manager s) ++ posted sched
  ∧ (∀ s' now, (length (dequeued (step s' (ManagerPass now)).2) ≤ 1)%nat)
  ∧ (∀ self now item rest,
       _quit self = false →
       _message_queue self = item :: rest →
       dequeued (step (mkSystem self Running) (ManagerPass now)).2 = [item]
       ∧ _message_queue (manager (step (mkSystem self Running)
                                    (ManagerPass now)).1) = rest)
  ∧ (raises_only_ClientException (C:=C) (V:=V) →
     manager_thread (exec s sched).1 = Running →
     _quit (manager (exec s sched).1) = false →
     length nows = length (_message_queue (manager (exec s sched).1)) →
     dequeued (exec s (sched ++ map ManagerPass nows)).2
       = _message_queue (manager s) ++ posted sched
     ∧ _message_queue (manager (exec s (sched ++ map ManagerPass nows)).1) = []
     ∧ manager_thread (exec s (sched ++ map ManagerPass nows)).1 = Running).
Proof.
  split; [apply exec_queue|]. split; [intros s' now; apply step_queue|]. split.
  - intros self now [device_name msg] rest Hq Hqueue.
    rewrite (step_ManagerPass_item _ _ _ _ _ Hq Hqueue).
    pose proof (handle_or_warn_dequeued (set_message_queue self rest)
                  now device_name msg) as Hd.
    pose proof (handle_or_warn_frame (set_message_queue self rest)
                  now device_name msg) as [Hfq _].
    destruct (handle_or_warn _ _ _ _) as [[r tr] self1]. cbn [fst snd] in *.
    split; [|done].
    change (Dequeued (device_name, msg) :: tr)
      with ([Dequeued (device_name, msg)] ++ tr).
    by rewrite dequeued_app, Hd.
  - intros Hc Hrun Hq Hlen.
    pose proof (exec_queue s sched) as Hcons.
    rewrite exec_app. cbn [fst snd].
    destruct (exec s sched) as [[self1 st1] tr1]. cbn [fst snd manager
      manager_thread] in *. subst st1.
    pose proof (manager_drains_queue self1 nows Hc Hq Hlen) as Hdrain.
    destruct (exec (mkSystem self1 Running) (map ManagerPass nows))
      as [s2 tr2]. cbn [fst snd].
    destruct Hdrain as (Hd & He & Hr).
    by rewrite dequeued_app, Hd, Hcons.
Qed.

End ManagerFacts.

(** ** The properties at concrete inputs *)

Lemma ShouldSuppress_within_window_witness :
  ShouldSuppress cache0 (seconds 10) flow0 100 = (cache0, true).
Proof.
  apply (ShouldSuppress_within_window cache0 (seconds 10) flow0 100 0).
  - reflexivity.
  - reflexivity.
  - vm_compute. reflexivity.
Defined.

Lemma ShouldSuppress_change_forwards_witness :
  let self1 := (ShouldSuppress cache0 (seconds 1) flow0 100).1 in
  let '(self2, suppress) := ShouldSuppress self1 (seconds 1) flow0 105 in
  suppress = false
  ∧ _last_reading_value self2 !! flow0 = Some 105
  ∧ _last_reading_time self2 !! flow0 = Some (seconds 1).
Proof.
  apply (ShouldSuppress_change_forwards cache0 (seconds 1) (seconds 1) flow0 100 105).
  lia.
Defined.

Lemma ShouldSuppress_at_boundary_witness :
  ShouldSuppress cache0 (seconds 60) flow0 100
    = (record_reading cache0 (seconds 60) flow0 100, false).
Proof.
  apply (ShouldSuppress_at_boundary cache0 (seconds 60) flow0 100 0).
  - reflexivity.
  - reflexivity.
  - reflexivity.
Defined.

(** The scenario is forwarded as the specification expects: 100 at 0 s,
    100 at 65 s and 105 at 66 s. *)
Example scenario_forwarded :
  (run_calls (fresh_cache (seconds 60)) scenario).2 = [false; true; false; false].
Proof. reflexivity. Qed.

Lemma last_reading_time_monotone_witness :
  ∃ t2,
    _last_reading_time
      (run_calls (fresh_cache (seconds 60)) scenario).1 !! flow0 = Some t2
    ∧ seconds 0 ≤ t2.
Proof.
  refine (proj2 (last_reading_time_monotone (K:=string * string) (V:=Z)
                   None (fresh_cache (seconds 60))
                   (take 2 scenario) (drop 2 scenario) eq_refl _)
            flow0 (seconds 0) eq_refl).
  vm_compute. repeat constructor; discriminate.
Defined.

(** C3 as stated fails for the window that is not configured: the
    constructor called without its argument takes the default of the flag,
    60 seconds, and the second of two equal readings ten seconds apart is
    suppressed. *)
Lemma absent_window_suppresses :
  __init__ (K:=string * string) (V:=Z) None = Some (fresh_cache (seconds 60))
  ∧ (run_calls (fresh_cache (seconds 60))
       [(seconds 0, flow0, 100); (seconds 10, flow0, 100)]).2 = [false; true].
Proof. split; reflexivity. Qed.

(** With a window of zero, a clock that is set back makes the difference
    negative, and the reading is suppressed: the clock readings must not
    decrease for a window of zero to suppress nothing. *)
Example zero_window_clock_set_back :
  (run_calls (fresh_cache 0)
     [(seconds 10, flow0, 100); (seconds 9, flow0, 100)]).2 = [false; true].
Proof. reflexivity. Qed.

Lemma zero_window_never_suppresses_witness :
  Forall (λ suppress, suppress = false) (run_calls (fresh_cache 0) scenario).2.
Proof.
  apply (zero_window_never_suppresses (fresh_cache 0) scenario).
  - reflexivity.
  - vm_compute. repeat constructor; discriminate.
Defined.

(** The send for flow0 fails once; the warning is logged, the thread keeps
    running, and the reading of flow1 is taken in the next pass and sent. *)
Lemma send_failure_isolated_witness :
  let cache1 := record_reading (fresh_cache (seconds 60)) 0 ("meter", "flow0") 100 in
  let cache2 := record_reading cache1 (seconds 1) ("meter", "flow1") 7 in
  let self1 := mkManager (mkFlaky 0) [item_flow1] cache1 false in
  let self2 := mkManager (mkFlaky 0) [] cache2 false in
  step (mkSystem (manager0 1 [item_flow0; item_flow1]) Running) (ManagerPass 0)
    = (mkSystem self1 Running,
       [Dequeued item_flow0; Called (CallSendMeterUpdate "flow0" 100);
        Logged WARNING "Got error during send: connection lost"])
  ∧ step (mkSystem self1 Running) (ManagerPass (seconds 1))
    = (mkSystem self2 Running,
       [Dequeued item_flow1; Called (CallSendMeterUpdate "flow1" 7)]).
Proof.
  intros cache1 cache2 self1 self2.
  exact (send_failure_isolated (manager0 1 [item_flow0; item_flow1])
           0 (seconds 1) "kegboard" (MeterStatusMessage "flow0" 100)
           "kegboard" (MeterStatusMessage "flow1" 7) []
           "connection lost" [Called (CallSendMeterUpdate "flow0" 100)] self1
           eq_refl eq_refl eq_refl).
Defined.

(** ** More on the cache *)

Section CacheMore.

Context {K : Type} `{Countable K}.
Context {V : Type} `{EqDecision V}.
Implicit Types (self : DuplicateSuppressingCache K V) (key : K) (value : V).
Implicit Types (now : Z) (calls : list (Z * K * V)).

(** A call adds its key to both dictionaries and removes none. *)
Lemma ShouldSuppress_dom self now key value :
  dom (_last_reading_time (ShouldSuppress self now key value).1)
    = {[key]} ∪ dom (_last_reading_time self)
  ∧ dom (_last_reading_value (ShouldSuppress self now key value).1)
    = {[key]} ∪ dom (_last_reading_value self).
Proof.
  unfold ShouldSuppress.
  destruct (_last_reading_time self !! key) as [t|] eqn:Ht; simpl.
  - assert (key ∈ dom (_last_reading_time self)) as Hin
      by (apply elem_of_dom; eauto).
    case_bool_decide as Hv; simpl.
    + rewrite !dom_insert_L. done.
    + assert (key ∈ dom (_last_reading_value self)) as Hin'.
      { apply elem_of_dom.
        destruct (_last_reading_value self !! key) as [v|] eqn:Hv'; [eauto|].
        destruct Hv. done. }
      case_bool_decide; simpl.
      * split; symmetry; apply subseteq_union_1_L; by apply singleton_subseteq_l.
      * rewrite !dom_insert_L. done.
  - rewrite !dom_insert_L. done.
Qed.

(** X1: after any sequence of calls on a new cache the two dictionaries have
    the same keys, and these are the keys of the calls made: an entry is
    never dropped and never half written. *)
Theorem cache_keys_are_keys_seen (max_age : option Z) self0 calls :
  __init__ max_age = Some self0 →
  dom (_last_reading_time (run_calls self0 calls).1)
    = list_to_set (map (λ c, c.1.2) calls)
  ∧ in_step (run_calls self0 calls).1.
Proof.
  intros Hinit.
  assert (∀ self,
            dom (_last_reading_time (run_calls self calls).1)
              = list_to_set (map (λ c, c.1.2) calls) ∪ dom (_last_reading_time self)
            ∧ dom (_last_reading_value (run_calls self calls).1)
              = list_to_set (map (λ c, c.1.2) calls) ∪ dom (_last_reading_value self))
    as Hgen.
  { induction calls as [|[[now key] value] calls IH]; intros self; simpl.
    - by rewrite !union_empty_l_L.
    - destruct (ShouldSuppress_dom self now key value) as [Ht Hv].
      destruct (ShouldSuppress self now key value) as [self1 b].
      destruct (IH self1) as [IHt IHv].
      destruct (run_calls self1 calls) as [self2 bs]. simpl in *.
      rewrite IHt, IHv, Ht, Hv.
      split; apply set_eq; intros x; rewrite !elem_of_union; tauto. }
  unfold __init__ in Hinit.
  destruct (datetime.timedelta _) as [d|]; [|done]. injection Hinit as <-.
  destruct (Hgen (mkCache d ∅ ∅)) as [Ht Hv]. unfold in_step.
  rewrite Ht, Hv. simpl. rewrite !dom_empty_L, !union_empty_r_L. done.
Qed.

(** A call leaves the entries of the other keys as they are. *)
Lemma ShouldSuppress_other_key self now key value k :
  key ≠ k →
  _last_reading_time (ShouldSuppress self now key value).1 !! k
    = _last_reading_time self !! k
  ∧ _last_reading_value (ShouldSuppress self now key value).1 !! k
    = _last_reading_value self !! k.
Proof.
  intros Hne.
  destruct (ShouldSuppress_cases self now key value) as [-> | ->]; simpl.
  - done.
  - by rewrite !lookup_insert_ne.
Qed.

(** The cache after a call, from what the call returned. *)
Lemma ShouldSuppress_fst self now key value :
  (ShouldSuppress self now key value).1 =
    if (ShouldSuppress self now key value).2
    then self
    else record_reading self now key value.
Proof. by destruct (ShouldSuppress_cases self now key value) as [-> | ->]. Qed.

(** What a call returns depends on the entry of its key and on the window
    only. *)
Lemma ShouldSuppress_result_local self self' now key value :
  _max_delta self = _max_delta self' →
  _last_reading_time self !! key = _last_reading_time self' !! key →
  _last_reading_value self !! key = _last_reading_value self' !! key →
  (ShouldSuppress self now key value).2 = (ShouldSuppress self' now key value).2.
Proof.
  intros Hd Ht Hv. unfold ShouldSuppress. rewrite Ht, Hv, Hd.
  destruct (_last_reading_time self' !! key); [|done].
  repeat case_bool_decide; done.
Qed.

(** X2: the keys have timelines of their own: two calls for different keys
    give the same two results and the same cache in either order. *)
Theorem ShouldSuppress_keys_commute self now1 now2 key1 key2 (v1 v2 : V) :
  key1 ≠ key2 →
  let a := ShouldSuppress self now1 key1 v1 in
  let ab := ShouldSuppress a.1 now2 key2 v2 in
  let b := ShouldSuppress self now2 key2 v2 in
  let ba := ShouldSuppress b.1 now1 key1 v1 in
  a.2 = ba.2 ∧ ab.2 = b.2 ∧ ab.1 = ba.1.
Proof.
  intros Hne a ab b ba.
  destruct (ShouldSuppress_other_key self now1 key1 v1 key2 Hne) as [Hat Hav].
  destruct (ShouldSuppress_other_key self now2 key2 v2 key1 (not_eq_sym Hne))
    as [Hbt Hbv].
  pose proof (ShouldSuppress_max_delta self now1 key1 v1) as Had.
  pose proof (ShouldSuppress_max_delta self now2 key2 v2) as Hbd.
  assert (a.2 = ba.2) as H1.
  { subst a ba b. by apply ShouldSuppress_result_local. }
  assert (ab.2 = b.2) as H2.
  { subst a ab b. by apply ShouldSuppress_result_local. }
  split; [done|]. split; [done|].
  pose proof (ShouldSuppress_fst self now1 key1 v1) as Ha.
  pose proof (ShouldSuppress_fst self now2 key2 v2) as Hb.
  pose proof (ShouldSuppress_fst a.1 now2 key2 v2) as Hab.
  pose proof (ShouldSuppress_fst b.1 now1 key1 v1) as Hba.
  fold a in Ha. fold b in Hb. fold ab in Hab. fold ba in Hba.
  rewrite Hab, Hba, H2, <- H1, Ha, Hb.
  generalize (a.2) (b.2). intros [|] [|]; try done.
  unfold record_reading; simpl. f_equal; by apply insert_insert_ne.
Qed.

End CacheMore.

(** ** The window and the readings forwarded *)

Section CacheWindow.

Context {K : Type} `{Countable K}.
Context {V : Type} `{EqDecision V}.
Implicit Types (self : DuplicateSuppressingCache K V) (key : K) (value : V).
Implicit Types (now : Z) (calls : list (Z * K * V)).

(** The entry of [key] after a call for [k]: the reading of the call when
    the call is for [key] and was not suppressed, the entry before the call
    otherwise. *)
Lemma ShouldSuppress_entry self now k value key :
  let r := ShouldSuppress self now k value in
  if bool_decide (k = key) && negb r.2
  then _last_reading_time r.1 !! key = Some now
       ∧ _last_reading_value r.1 !! key = Some value
  else _last_reading_time r.1 !! key = _last_reading_time self !! key
       ∧ _last_reading_value r.1 !! key = _last_reading_value self !! key.
Proof.
  intros r. subst r. case_bool_decide as Hk; simpl.
  - subst k.
    destruct (ShouldSuppress_cases self now key value) as [-> | ->]; simpl.
    + done.
    + by rewrite !lookup_insert_eq.
  - by apply ShouldSuppress_other_key.
Qed.

Lemma forwarded_cons key now k value calls (b : bool) (bs : list bool) :
  forwarded key ((now, k, value) :: calls) (b :: bs) =
    (if bool_decide (k = key) && negb b then [(now, value)] else [])
      ++ forwarded key calls bs.
Proof.
  unfold forwarded. simpl. by destruct (bool_decide (k = key) && negb b).
Qed.

(** The entry of a key after a sequence of calls is the last reading the
    sequence forwarded for the key, or the entry before the sequence when it
    forwarded none. *)
Lemma run_calls_entry self calls key :
  match last (forwarded key calls (run_calls self calls).2) with
  | Some (t, v) =>
    _last_reading_time (run_calls self calls).1 !! key = Some t
    ∧ _last_reading_value (run_calls self calls).1 !! key = Some v
  | None =>
    _last_reading_time (run_calls self calls).1 !! key
      = _last_reading_time self !! key
    ∧ _last_reading_value (run_calls self calls).1 !! key
      = _last_reading_value self !! key
  end.
Proof.
  revert self. induction calls as [|[[now k] value] calls IH]; intros self.
  - done.
  - cbn [run_calls].
    pose proof (ShouldSuppress_entry self now k value key) as Hstep.
    destruct (ShouldSuppress self now k value) as [self1 b].
    specialize (IH self1).
    destruct (run_calls self1 calls) as [self2 bs]. cbn [fst snd] in *.
    rewrite forwarded_cons.
    destruct (bool_decide (k = key) && negb b); cbn [app].
    + rewrite last_cons.
      destruct (last (forwarded key calls bs)) as [[t v]|]; [done|].
      destruct IH as [-> ->]. done.
    + destruct (last (forwarded key calls bs)) as [[t v]|]; [done|].
      destruct IH as [-> ->]. done.
Qed.

(** X3: the cache holds, for each key, the last reading that was forwarded
    (not the last reading seen): after a sequence of calls the entry of a key
    is the value and the clock reading of the last call for the key that
    returned false, and the entry from before the sequence when no call for
    the key returned false. *)
Theorem cache_holds_last_forwarded self calls key :
  match last (forwarded key calls (run_calls self calls).2) with
  | Some (t, v) =>
    _last_reading_time (run_calls self calls).1 !! key = Some t
    ∧ _last_reading_value (run_calls self calls).1 !! key = Some v
  | None =>
    _last_reading_time (run_calls self calls).1 !! key
      = _last_reading_time self !! key
    ∧ _last_reading_value (run_calls self calls).1 !! key
      = _last_reading_value self !! key
  end.
Proof. apply run_calls_entry. Qed.

(** X4: the window runs from the last forwarded reading. When a reading was
    forwarded at [now1] and the calls after it forwarded nothing for the key,
    a further call with the same value is suppressed exactly when less than
    the window has passed since [now1], however many suppressed calls lie in
    between. *)
Theorem window_counts_from_last_forwarded self now1 now2 key value calls :
  (ShouldSuppress self now1 key value).2 = false →
  let self1 := (ShouldSuppress self now1 key value).1 in
  forwarded key calls (run_calls self1 calls).2 = [] →
  (ShouldSuppress (run_calls self1 calls).1 now2 key value).2
    = bool_decide (now2 - now1 < _max_delta self).
Proof.
  intros Hfw self1 Hnone.
  pose proof (ShouldSuppress_entry self now1 key value key) as Hentry.
  cbn zeta in Hentry. rewrite Hfw, bool_decide_eq_true_2 in Hentry by done.
  destruct Hentry as [Ht Hv]. fold self1 in Ht, Hv.
  pose proof (run_calls_entry self1 calls key) as Hrun.
  rewrite Hnone in Hrun. destruct Hrun as [Ht2 Hv2].
  rewrite Ht in Ht2. rewrite Hv in Hv2.
  rewrite (ShouldSuppress_same _ _ _ _ _ Ht2 Hv2).
  rewrite run_calls_max_delta. subst self1. rewrite ShouldSuppress_max_delta.
  by case_bool_decide.
Qed.

(** With a window that is not positive and stored timestamps that are not
    in the future, no call is suppressed. *)
Lemma run_calls_nonpositive_window self calls :
  _max_delta self ≤ 0 →
  not_after self (call_times calls) →
  StronglySorted Z.le (call_times calls) →
  Forall (λ suppress, suppress = false) (run_calls self calls).2.
Proof.
  revert self. induction calls as [|[[now key] value] calls IH]; intros self; simpl.
  - intros. constructor.
  - intros Hd Hna Hs.
    destruct (ShouldSuppress_time_step self now key value _ Hna Hs) as [Hna1 _].
    pose proof (ShouldSuppress_max_delta self now key value) as Hd1.
    assert ((ShouldSuppress self now key value).2 = false) as Hb.
    { unfold ShouldSuppress.
      destruct (_last_reading_time self !! key) as [t|] eqn:Ht; [|done].
      case_bool_decide; [done|]. rewrite bool_decide_eq_false_2; [done|].
      assert (t ≤ now) by (eapply Hna; [done|apply elem_of_cons; by left]). lia. }
    apply StronglySorted_inv in Hs as [Hs _].
    destruct (ShouldSuppress self now key value) as [self1 b]. simpl in *.
    specialize (IH self1 ltac:(lia) Hna1 Hs).
    destruct (run_calls self1 calls) as [self2 bs]. simpl in *.
    constructor; done.
Qed.

(** The constructor takes the numbers of seconds whose whole days fit a
    [timedelta] and raises [OverflowError] on the others. *)
Lemma init_accepts_iff (max_age : Z) :
  is_Some (__init__ (K:=K) (V:=V) (Some max_age))
  ↔ -86399999913600 ≤ max_age < 86400000000000.
Proof.
  unfold __init__, datetime.timedelta. simpl.
  pose proof (Z_div_mod_eq_full max_age 86400) as Hdiv.
  pose proof (Z.mod_pos_bound max_age 86400 ltac:(lia)) as Hmod.
  case_bool_decide as Hd; simpl.
  - split; [intros _; lia|eauto].
  - split; [by intros [? ?]|intros Hr; destruct Hd; lia].
Qed.

(** X5: a negative [max_age] acts as zero. For every [max_age] from
    -86399999913600 (the least number of seconds a [timedelta] takes) to 0
    the constructor returns a cache, and this cache suppresses nothing as
    long as the clock readings of the calls do not decrease. *)
Theorem nonpositive_window_never_suppresses (max_age : Z) calls :
  -86399999913600 ≤ max_age ≤ 0 →
  StronglySorted Z.le (call_times calls) →
  ∃ self0,
    __init__ (Some max_age) = Some self0
    ∧ Forall (λ suppress, suppress = false) (run_calls self0 calls).2.
Proof.
  intros Hrange Hs.
  destruct (proj2 (init_accepts_iff max_age) ltac:(lia)) as [self0 Hinit].
  exists self0. split; [done|].
  unfold __init__, datetime.timedelta in Hinit. simpl in Hinit.
  case_bool_decide; [|done]. simpl in Hinit. injection Hinit as <-.
  apply run_calls_nonpositive_window; [simpl; lia|apply not_after_fresh|done].
Qed.

(** The keys a sequence of calls leaves in the timestamps are those of the
    cache before it and those of the calls. *)
Lemma run_calls_time_dom self calls :
  dom (_last_reading_time (run_calls self calls).1)
    = list_to_set (map (λ c, c.1.2) calls) ∪ dom (_last_reading_time self).
Proof.
  revert self. induction calls as [|[[now key] value] calls IH]; intros self; simpl.
  - by rewrite union_empty_l_L.
  - destruct (ShouldSuppress_dom self now key value) as [Ht _].
    destruct (ShouldSuppress self now key value) as [self1 b].
    specialize (IH self1).
    destruct (run_calls self1 calls) as [self2 bs]. simpl in *.
    rewrite IH, Ht. apply set_eq; intros x; rewrite !elem_of_union; tauto.
Qed.

(** X6: on a new cache the first reading of every key is forwarded, whatever
    the window and the clock: a call for a key that no earlier call of the
    sequence had returns false. *)
Theorem first_reading_forwarded (max_age : option Z) self0 calls now key value :
  __init__ max_age = Some self0 →
  key ∉ map (λ c, c.1.2) calls →
  (run_calls self0 (calls ++ [(now, key, value)])).2
    = (run_calls self0 calls).2 ++ [false].
Proof.
  intros Hinit Hnew. rewrite run_calls_app. cbn [snd run_calls].
  pose proof (run_calls_time_dom self0 calls) as Hdom.
  assert (_last_reading_time (run_calls self0 calls).1 !! key = None) as Hnone.
  { apply not_elem_of_dom. rewrite Hdom.
    unfold __init__ in Hinit.
    destruct (datetime.timedelta _) as [d|]; [|done]. injection Hinit as <-.
    simpl. rewrite dom_empty_L, union_empty_r_L.
    by rewrite elem_of_list_to_set. }
  rewrite (ShouldSuppress_first _ _ _ _ Hnone). done.
Qed.

End CacheWindow.

(** ** More on the manager *)

Section ManagerMore.

Context {V : Type} `{EqDecision V}.
Context {C : Type} `{KegnetClient C V}.
Implicit Types (self : KegboardManagerThread V C) (msg : Message V).
Implicit Types (now : Z) (device_name : string) (s : system V C).

(** Handling a message that has a key is a call of [ShouldSuppress] on the
    key followed, when it returned false, by the call on the client; the
    cache is then the one [ShouldSuppress] returned, however the call on the
    client ended. *)
Lemma HandleDeviceMessage_reading self now device_name msg key value call :
  message_key msg = Some key →
  message_value msg = Some value →
  reading_call (device_name, msg) = Some call →
  let r := ShouldSuppress (_cache self) now key value in
  (r.2 = true
   ∧ _HandleDeviceMessage now device_name msg self
       = (Return tt, [], set_cache self r.1))
  ∨ (r.2 = false
     ∧ ∃ result client,
         _HandleDeviceMessage now device_name msg self
           = (result, [Called call], set_client (set_cache self r.1) client)).
Proof.
  destruct msg as [n v|n v|k]; simpl; [| |done].
  - intros [= <-] [= <-] [= <-]. unfold bind, cache_ShouldSuppress.
    destruct (ShouldSuppress _ _ _ _) as [cache [|]]; simpl; [by left|right].
    split; [done|]. unfold client_SendMeterUpdate. simpl.
    destruct (SendMeterUpdate _ _ _) as [[[]|e] c]; simpl; eauto.
  - intros [= <-] [= <-] [= <-]. unfold bind, cache_ShouldSuppress.
    destruct (ShouldSuppress _ _ _ _) as [cache [|]]; simpl; [by left|right].
    split; [done|]. unfold client_SendThermoUpdate. simpl.
    destruct (SendThermoUpdate _ _ _) as [[[]|e] c]; simpl; eauto.
Qed.

(** A message has a key, a reading and a call together, or none of them. *)
Lemma message_reading_cases device_name msg :
  (∃ key value call,
     message_key msg = Some key ∧ message_value msg = Some value
     ∧ reading_call (device_name, msg) = Some call)
  ∨ (∃ kind, msg = OtherMessage kind).
Proof. destruct msg; simpl; eauto 10. Qed.

(** X7: a reading whose send failed is used up. When handling a message
    raises (the send raised, after the cache had recorded the reading), the
    same reading arriving again before the window has passed is suppressed:
    nothing is sent, so the failed reading is not tried again. *)
Theorem failed_send_uses_up_reading self now now' device_name device_name'
    msg (e : exn) tr self1 :
  _HandleDeviceMessage now device_name msg self = (Raise e, tr, self1) →
  now' - now < _max_delta (_cache self) →
  _HandleDeviceMessage now' device_name' msg self1 = (Return tt, [], self1).
Proof.
  intros Hraise Hwin.
  destruct (message_reading_cases device_name msg)
    as [(key & value & call & Hk & Hv & Hc) | [kind ->]]; [|done].
  destruct (HandleDeviceMessage_reading self now device_name msg key value call
              Hk Hv Hc) as [[_ Hret] | (Hfw & r & c & Hsent)].
  { rewrite Hret in Hraise. done. }
  rewrite Hsent in Hraise. injection Hraise as -> <- <-.
  pose proof (ShouldSuppress_fst (_cache self) now key value) as Hfst.
  rewrite Hfw in Hfst.
  assert (∃ call', reading_call (device_name', msg) = Some call') as [call' Hc']
    by (destruct msg; simpl in *; eauto; done).
  destruct (HandleDeviceMessage_reading
              (set_client (set_cache self (ShouldSuppress (_cache self) now key value).1) c)
              now' device_name' msg key value call' Hk Hv Hc')
    as [[_ Hret] | (Hfw' & _)]; simpl in *.
  - rewrite Hret. rewrite Hfst. simpl.
    erewrite ShouldSuppress_same;
      [|simpl; apply lookup_insert_eq|simpl; apply lookup_insert_eq].
    simpl. rewrite bool_decide_eq_true_2 by done. done.
  - rewrite Hfst in Hfw'.
    erewrite ShouldSuppress_same in Hfw';
      [|simpl; apply lookup_insert_eq|simpl; apply lookup_insert_eq].
    simpl in Hfw'. rewrite bool_decide_eq_true_2 in Hfw' by done. done.
Qed.

(** X8: an exception of the client that is not a [ClientException] ends the
    manager thread: the pass that takes the message from the queue logs no
    warning, and the exception leaves [run]. *)
Theorem other_exception_ends_manager self now device_name msg rest
    (what : string) tr self1 :
  _quit self = false →
  _message_queue self = (device_name, msg) :: rest →
  _HandleDeviceMessage now device_name msg (set_message_queue self rest)
    = (Raise (Exception what), tr, self1) →
  step (mkSystem self Running) (ManagerPass now)
    = (mkSystem self1 (Died (Exception what)),
       Dequeued (device_name, msg) :: tr).
Proof.
  intros Hq Hqueue Hraise.
  rewrite (step_ManagerPass_item _ _ _ _ _ Hq Hqueue).
  unfold handle_or_warn, try_except_ClientException. by rewrite Hraise.
Qed.

(** One step of a manager thread that is not running. *)
Lemma step_not_running s (a : action V) :
  manager_thread s ≠ Running →
  (step s a).2 = []
  ∧ manager_thread (step s a).1 = manager_thread s
  ∧ _cache (manager (step s a).1) = _cache (manager s)
  ∧ _client (manager (step s a).1) = _client (manager s)
  ∧ _message_queue (manager (step s a).1)
      = _message_queue (manager s) ++ posted [a].
Proof.
  intros Hst. destruct s as [self st]. simpl in *.
  destruct a as [now|msg|]; simpl.
  - destruct st; [done| |]; simpl; by rewrite app_nil_r.
  - done.
  - by rewrite app_nil_r.
Qed.

(** X9: once the manager thread has ended, by the stop flag or by an
    exception, nothing is taken from the queue any more: over every schedule
    it makes no call and logs nothing, its cache and client stay as they
    are, and the queue keeps everything the device thread posts. *)
Theorem ended_manager_handles_nothing s (sched : list (action V)) :
  manager_thread s ≠ Running →
  (exec s sched).2 = []
  ∧ manager_thread (exec s sched).1 = manager_thread s
  ∧ _cache (manager (exec s sched).1) = _cache (manager s)
  ∧ _client (manager (exec s sched).1) = _client (manager s)
  ∧ _message_queue (manager (exec s sched).1)
      = _message_queue (manager s) ++ posted sched.
Proof.
  revert s. induction sched as [|a sched IH]; intros s Hst.
  - simpl. by rewrite app_nil_r.
  - rewrite (posted_cons a sched). cbn [exec].
    destruct (step_not_running s a Hst) as (Htr & Hst1 & Hc & Hcl & Hqu).
    destruct (step s a) as [s1 tr1]. cbn [fst snd] in *.
    destruct (IH s1 ltac:(congruence)) as (Htr2 & Hst2 & Hc2 & Hcl2 & Hqu2).
    destruct (exec s1 sched) as [s2 tr2]. cbn [fst snd] in *.
    subst tr1 tr2. rewrite Hst2, Hc2, Hcl2, Hqu2, Hqu, app_assoc. done.
Qed.

Lemma calls_app (tr1 tr2 : list (effect V)) :
  calls (tr1 ++ tr2) = calls tr1 ++ calls tr2.
Proof. unfold calls. apply omap_app. Qed.

(** The calls of the second [try] statement of the loop: none, or the one
    call of the reading. *)
Lemma handle_or_warn_calls self now device_name msg :
  calls (handle_or_warn now device_name msg self).1.2
    `sublist_of` option_list (reading_call (device_name, msg)).
Proof.
  unfold handle_or_warn, try_except_ClientException.
  destruct (message_reading_cases device_name msg)
    as [(key & value & call & Hk & Hv & Hc) | [kind ->]]; [|done].
  destruct (HandleDeviceMessage_reading self now device_name msg key value call
              Hk Hv Hc) as [[_ ->] | (_ & r & c & ->)]; rewrite Hc; simpl.
  - apply sublist_nil_l.
  - by destruct r as [[]|[e|e]].
Qed.

(** The calls of one step are among the calls of the readings it took from
    the queue. *)
Lemma step_calls s (a : action V) :
  calls (step s a).2 `sublist_of` omap reading_call (dequeued (step s a).2).
Proof.
  destruct s as [self st]. destruct a as [now|msg|]; simpl; [|done|done].
  destruct st; simpl; [|done|done].
  unfold run_iteration. destruct (_quit self); simpl; [done|].
  unfold bind, message_queue_get.
  destruct (_message_queue self) as [|[device_name msg] rest]; simpl; [done|].
  pose proof (handle_or_warn_calls (set_message_queue self rest)
                now device_name msg) as Hc.
  pose proof (handle_or_warn_dequeued (set_message_queue self rest)
                now device_name msg) as Hd.
  destruct (handle_or_warn _ _ _ _) as [[[[]|e] tr] self1];
    cbn [fst snd] in *; rewrite ?app_nil_r;
    change (Dequeued (device_name, msg) :: tr)
      with ([Dequeued (device_name, msg)] ++ tr);
    rewrite calls_app, dequeued_app, Hd; simpl;
    by destruct (reading_call (device_name, msg)).
Qed.

(** X11: the manager sends nothing it did not read. Over every schedule the
    calls made on the client are, in the same order, among the calls of the
    readings taken from the queue: each reading is sent once at most, with
    its own name and value, and the sends keep the order of the readings. *)
Theorem calls_follow_readings s (sched : list (action V)) :
  calls (exec s sched).2
    `sublist_of` omap reading_call (dequeued (exec s sched).2).
Proof.
  revert s. induction sched as [|a sched IH]; intros s; [done|].
  cbn [exec]. pose proof (step_calls s a) as Hstep.
  destruct (step s a) as [s1 tr1]. specialize (IH s1).
  destruct (exec s1 sched) as [s2 tr2]. cbn [fst snd] in *.
  rewrite calls_app, dequeued_app, omap_app. by apply sublist_app.
Qed.

(** X12: handling a message touches the cache entry of the message's own
    key only. Every other entry keeps its timestamp and value; a meter and
    a temperature sensor of the same name have different keys and do not
    disturb each other. *)
Theorem HandleDeviceMessage_touches_own_key self now device_name msg
    (k : string * string) :
  message_key msg ≠ Some k →
  let self1 := (_HandleDeviceMessage now device_name msg self).2 in
  _last_reading_time (_cache self1) !! k = _last_reading_time (_cache self) !! k
  ∧ _last_reading_value (_cache self1) !! k
    = _last_reading_value (_cache self) !! k.
Proof.
  intros Hk self1. subst self1.
  destruct (message_reading_cases device_name msg)
    as [(key & value & call & Hkey & Hv & Hc) | [kind ->]]; [|done].
  assert (key ≠ k) as Hne by congruence.
  destruct (HandleDeviceMessage_reading self now device_name msg key value call
              Hkey Hv Hc) as [[_ ->] | (_ & r & c & ->)]; simpl;
    by apply ShouldSuppress_other_key.
Qed.

End ManagerMore.

(** ** The stop flag *)

Section StopFlag.

Context {V : Type} `{EqDecision V}.
Context {C : Type} `{KegnetClient C V}.
Implicit Types (self : KegboardManagerThread V C) (msg : Message V).
Implicit Types (now : Z) (s : fine_system V C).


(** A pass of [step] is the test and the [get] of [move] one right after
    the other. *)
Lemma pass_is_test_then_get self now :
  let '(s1, tr1) := move now (mkFine self AtTest) in
  let '(s2, tr2) := move now s1 in
  step (mkSystem self Running) (ManagerPass now)
    = (mkSystem (fine_manager s2) (thread_state_at (run_at s2)), tr1 ++ tr2).
Proof.
  unfold move, step, run_iteration. simpl.
  destruct (_quit self) eqn:Hq; simpl; [done|].
  unfold bind, message_queue_get.
  destruct (_message_queue self) as [|[device_name msg] rest]; simpl; [done|].
  destruct (handle_or_warn _ _ _ _) as [[[[]|e] tr] self1]; simpl.
  - by rewrite app_nil_r.
  - done.
Qed.





End StopFlag.

(** ** The device thread *)

Section DeviceIoFacts.

Import KegboardDeviceIoThread.

Context {V : Type} `{EqDecision V}.
Context {C : Type} `{KegnetClient C V}.
Implicit Types (manager : KegboardManagerThread V C).
Implicit Types (reads : list (bool * outcome (Message V))).

(** The manager after the passes of the loop: its queue got the messages
    read, each under the device name kegboard, and nothing else changed. *)
Lemma MainLoop_passes_manager reads manager :
  (_MainLoop_passes reads manager).2
    = set_message_queue manager
        (_message_queue manager
           ++ map (λ msg, ("kegboard", msg)) (messages_read reads)).
Proof.
  revert manager. induction reads as [|[quit read] reads IH]; intros manager.
  - simpl. rewrite app_nil_r. by destruct manager.
  - simpl. destruct quit; simpl.
    { rewrite app_nil_r. by destruct manager. }
    destruct read as [msg|e]; simpl.
    + rewrite IH. unfold _MainLoop_pass, PostDeviceMessage, Queue.put,
        set_message_queue. simpl. by rewrite <- app_assoc.
    + rewrite app_nil_r. by destruct manager.
Qed.

(** How the passes end: the loop is still running exactly when every pass
    given found the stop flag clear and got a message. *)
Lemma MainLoop_passes_running reads manager :
  (_MainLoop_passes reads manager).1.1 = LoopRunning
  ↔ length (messages_read reads) = length reads.
Proof.
  revert manager. induction reads as [|[quit read] reads IH]; intros manager.
  - done.
  - simpl. destruct quit; simpl; [done|].
    destruct read as [msg|e]; simpl; [|done].
    rewrite IH. split; intros; congruence.
Qed.

(** X13: [_MainLoop] hands on what it reads and nothing else. The queue of
    the manager gets the messages of the passes before the first one that
    sees the stop flag or whose read raises, in the order read, each under
    the device name kegboard; the rest of the manager is untouched, and a
    message read is neither dropped nor looked at. *)
Theorem MainLoop_posts_what_it_reads reads manager :
  (_MainLoop reads manager).2
    = set_message_queue manager
        (_message_queue manager
           ++ map (λ msg, ("kegboard", msg)) (messages_read reads)).
Proof.
  unfold _MainLoop. pose proof (MainLoop_passes_manager reads manager) as Hm.
  by destruct (_MainLoop_passes reads manager) as [[r tr] manager1].
Qed.

(** X14: [run] closes the port on every way out of the loop and on no
    other. When opening the port raises, the exception leaves [run], no
    port was set, nothing is posted. When the port was opened, [run] ends
    as [_MainLoop] ends (what a read raised is raised again after the
    [finally] clause), and the port is closed exactly when the loop has
    ended, by the stop flag or by an exception. *)
Theorem run_closes_port (opened : outcome unit) reads
    (device_path : string) (device_speed : Z) manager :
  let '(r, tr, self1, manager1) :=
    run opened reads (__init__ device_path device_speed) manager in
  match opened with
  | Raise e =>
    r = LoopRaised e ∧ _serial_fd self1 = None ∧ manager1 = manager
  | Return _ =>
    r = (_MainLoop reads manager).1.1
    ∧ manager1 = (_MainLoop reads manager).2
    ∧ (_serial_fd self1 = Some PortClosed ↔ r ≠ LoopRunning)
    ∧ (_serial_fd self1 = Some PortOpen ↔ r = LoopRunning)
  end.
Proof.
  unfold run. destruct opened as [[]|e]; simpl; [|done].
  destruct (_MainLoop reads manager) as [[r tr] manager1].
  destruct r; simpl; repeat split; try done.
Qed.

(** X15: the two loops end to end. The device loop posts what it read to a
    manager with an empty queue; when the stop flag is clear and the client
    raises nothing but [ClientException], as many passes of the manager's
    loop as messages were read take exactly these messages from the queue,
    in the order in which the device gave them, and leave the queue empty
    and the thread running. *)
Theorem pipeline_delivers_in_order reads
    (self : KegboardManagerThread V C) (nows : list Z) :
  raises_only_ClientException (C:=C) (V:=V) →
  _quit self = false →
  _message_queue self = [] →
  length nows = length (messages_read reads) →
  let self1 := (_MainLoop reads self).2 in
  let '(s1, tr) := exec (mkSystem self1 Running) (map ManagerPass nows) in
  dequeued tr = map (λ msg, ("kegboard", msg)) (messages_read reads)
  ∧ _message_queue (manager s1) = []
  ∧ manager_thread s1 = Running.
Proof.
  intros Hc Hq Hempty Hlen self1.
  assert (self1 = set_message_queue self
            (map (λ msg, ("kegboard", msg)) (messages_read reads))) as Hm.
  { subst self1. unfold _MainLoop.
    pose proof (MainLoop_passes_manager reads self) as Hm.
    destruct (_MainLoop_passes reads self) as [[r tr] m1]. simpl in *.
    by rewrite Hm, Hempty. }
  pose proof (manager_drains_queue self1 nows Hc) as Hdrain.
  rewrite Hm in Hdrain |- *. simpl in Hdrain.
  specialize (Hdrain Hq ltac:(by rewrite length_map)).
  by destruct (exec _ _) as [s1 tr].
Qed.

End DeviceIoFacts.

(** ** The further properties at concrete inputs *)

Lemma FlakyClient_raises_only_ClientException :
  raises_only_ClientException (C:=FlakyClient) (V:=Z).
Proof.
  intros c name value what. simpl. unfold flaky_send.
  by destruct (failures_left c).
Qed.

Lemma cache_keys_are_keys_seen_witness :
  dom (_last_reading_time (run_calls (fresh_cache (seconds 60)) scenario).1)
    = list_to_set (map (λ c, c.1.2) scenario)
  ∧ in_step (run_calls (fresh_cache (seconds 60)) scenario).1.
Proof.
  exact (cache_keys_are_keys_seen (K:=string * string) (V:=Z)
           None (fresh_cache (seconds 60)) scenario eq_refl).
Defined.

Lemma ShouldSuppress_keys_commute_witness :
  let a := ShouldSuppress cache0 (seconds 10) flow0 100 in
  let ab := ShouldSuppress a.1 (seconds 11) thermo0 21 in
  let b := ShouldSuppress cache0 (seconds 11) thermo0 21 in
  let ba := ShouldSuppress b.1 (seconds 10) flow0 100 in
  a.2 = ba.2 ∧ ab.2 = b.2 ∧ ab.1 = ba.1.
Proof.
  apply (ShouldSuppress_keys_commute cache0 (seconds 10) (seconds 11)
           flow0 thermo0 100 21).
  discriminate.
Defined.

(** Forwarded at 0 s, suppressed at 10 s and at 50 s: at 65 s the reading is
    forwarded again, 15 s after the last suppressed one. *)
Lemma window_counts_from_last_forwarded_witness :
  (ShouldSuppress
     (run_calls (ShouldSuppress (fresh_cache (seconds 60)) 0 flow0 100).1
        [(seconds 10, flow0, 100); (seconds 50, flow0, 100)]).1
     (seconds 65) flow0 100).2
    = bool_decide (seconds 65 - 0 < seconds 60).
Proof.
  exact (window_counts_from_last_forwarded (fresh_cache (seconds 60))
           0 (seconds 65) flow0 100
           [(seconds 10, flow0, 100); (seconds 50, flow0, 100)]
           eq_refl eq_refl).
Defined.

Lemma nonpositive_window_never_suppresses_witness :
  ∃ self0 : DuplicateSuppressingCache (string * string) Z,
    __init__ (Some (-5)) = Some self0
    ∧ Forall (λ suppress, suppress = false) (run_calls self0 scenario).2.
Proof.
  apply (nonpositive_window_never_suppresses (-5) scenario).
  - lia.
  - vm_compute. repeat constructor; discriminate.
Defined.

(** One second below the range the constructor raises. *)
Example init_overflow :
  __init__ (K:=string * string) (V:=Z) (Some (-86399999913601)) = None.
Proof. reflexivity. Qed.

Lemma first_reading_forwarded_witness :
  (run_calls (fresh_cache (seconds 60))
     (take 2 scenario ++ [(seconds 10, thermo0, 21)])).2
    = (run_calls (fresh_cache (seconds 60)) (take 2 scenario)).2 ++ [false].
Proof.
  apply (first_reading_forwarded (K:=string * string) (V:=Z)
           None (fresh_cache (seconds 60)) (take 2 scenario)
           (seconds 10) thermo0 21).
  - reflexivity.
  - vm_compute. intros Hin. repeat (apply elem_of_cons in Hin as [Hin|Hin];
      [discriminate|]). by apply elem_of_nil in Hin.
Defined.

(** The send of flow0 = 100 fails at 0 s. The same reading at 10 s, when the
    client would work again, is suppressed. *)
Lemma failed_send_uses_up_reading_witness :
  let self1 := mkManager (mkFlaky 0) []
                 (record_reading (fresh_cache (seconds 60)) 0 flow0 100) false in
  _HandleDeviceMessage (seconds 10) "kegboard" (MeterStatusMessage "flow0" 100)
    self1 = (Return tt, [], self1).
Proof.
  intros self1.
  apply (failed_send_uses_up_reading (manager0 1 []) 0 (seconds 10)
           "kegboard" "kegboard" (MeterStatusMessage "flow0" 100)
           (ClientException "connection lost")
           [Called (CallSendMeterUpdate "flow0" 100)] self1).
  - reflexivity.
  - reflexivity.
Defined.

Lemma other_exception_ends_manager_witness :
  let self := mkManager (mkBroken 0) [item_flow0; item_flow1]
                (fresh_cache (seconds 60)) false in
  let self1 := mkManager (mkBroken 1) [item_flow1]
                 (record_reading (fresh_cache (seconds 60)) 0 flow0 100) false in
  step (mkSystem self Running) (ManagerPass 0)
    = (mkSystem self1 (Died (Exception "socket closed")),
       [Dequeued item_flow0; Called (CallSendMeterUpdate "flow0" 100)]).
Proof.
  intros self self1.
  exact (other_exception_ends_manager self 0 "kegboard"
           (MeterStatusMessage "flow0" 100) [item_flow1] "socket closed"
           [Called (CallSendMeterUpdate "flow0" 100)] self1
           eq_refl eq_refl eq_refl).
Defined.

Lemma ended_manager_handles_nothing_witness :
  let s := mkSystem (manager0 0 [item_flow0]) (Died (Exception "socket closed")) in
  let sched := [DevicePass (MeterStatusMessage "flow1" 7); ManagerPass 0] in
  (exec s sched).2 = []
  ∧ manager_thread (exec s sched).1 = manager_thread s
  ∧ _cache (manager (exec s sched).1) = _cache (manager s)
  ∧ _client (manager (exec s sched).1) = _client (manager s)
  ∧ _message_queue (manager (exec s sched).1)
      = _message_queue (manager s) ++ posted sched.
Proof.
  intros s sched.
  apply (ended_manager_handles_nothing s sched). discriminate.
Defined.

(** The flag is set and a reading is posted while the manager waits in
    [get]: the reading is taken and sent, and the thread then leaves the
    loop. *)
Example stop_during_get :
  fine_exec (mkFine (manager0 0 []) AtTest)
    [ManagerMove 0; ControllerStops; DevicePosts (MeterStatusMessage "flow0" 100);
     ManagerMove 0; ManagerMove 0]
  = (mkFine (mkManager (mkFlaky 0) []
               (record_reading (fresh_cache (seconds 60)) 0 flow0 100) true)
       RunReturned,
     [Dequeued item_flow0; Called (CallSendMeterUpdate "flow0" 100);
      Logged INFO "Exiting main loop."]).
Proof. reflexivity. Qed.


Lemma HandleDeviceMessage_touches_own_key_witness :
  let self := mkManager (mkFlaky 0) [] cache0 false in
  let self1 := (_HandleDeviceMessage (seconds 70) "kegboard"
                  (TemperatureReadingMessage "flow0" 21) self).2 in
  _last_reading_time (_cache self1) !! flow0
    = _last_reading_time (_cache self) !! flow0
  ∧ _last_reading_value (_cache self1) !! flow0
    = _last_reading_value (_cache self) !! flow0.
Proof.
  intros self.
  apply (HandleDeviceMessage_touches_own_key self (seconds 70) "kegboard"
           (TemperatureReadingMessage "flow0" 21) flow0).
  discriminate.
Defined.

Lemma pipeline_delivers_in_order_witness :
  let self1 := (KegboardDeviceIoThread._MainLoop reads0 (manager0 0 [])).2 in
  let '(s1, tr) :=
    exec (mkSystem self1 Running) (map ManagerPass [0; seconds 1]) in
  dequeued tr
    = map (λ msg, ("kegboard", msg))
        (KegboardDeviceIoThread.messages_read reads0)
  ∧ _message_queue (manager s1) = []
  ∧ manager_thread s1 = Running.
Proof.
  apply (pipeline_delivers_in_order reads0 (manager0 0 []) [0; seconds 1]).
  - exact FlakyClient_raises_only_ClientException.
  - reflexivity.
  - reflexivity.
  - reflexivity.
Defined.

(** The device loop on the three passes: two messages posted, the third
    pass sees the stop flag and reads nothing. *)
Example MainLoop_reads0 :
  KegboardDeviceIoThread._MainLoop reads0 (manager0 0 [])
    = (KegboardDeviceIoThread.LoopReturned,
       [(INFO, "Starting reader loop..."); (INFO, "Reader loop ended.")],
       manager0 0 [("kegboard", MeterStatusMessage "flow0" 100);
                   ("kegboard", TemperatureReadingMessage "flow0" 21)]).
Proof. reflexivity. Qed.

(** Three readings posted around a pass of the manager: after two more
    passes the manager has taken all three, in the order of posting. *)
Lemma fifo_preserved_witness :
  let s := mkSystem (manager0 0 []) Running in
  let sched := [DevicePass (MeterStatusMessage "flow0" 100); ManagerPass 0;
                DevicePass (TemperatureReadingMessage "flow0" 21);
                DevicePass (MeterStatusMessage "flow1" 7)] in
  let nows := [seconds 1; seconds 2] in
  dequeued (exec s (sched ++ map ManagerPass nows)).2
    = [("kegboard", MeterStatusMessage "flow0" 100);
       ("kegboard", TemperatureReadingMessage "flow0" 21);
       ("kegboard", MeterStatusMessage "flow1" 7)]
  ∧ _message_queue (manager (exec s (sched ++ map ManagerPass nows)).1) = []
  ∧ manager_thread (exec s (sched ++ map ManagerPass nows)).1 = Running.
Proof.
  intros s sched nows.
  apply (proj2 (proj2 (proj2 (fifo_preserved s sched nows)))).
  - exact FlakyClient_raises_only_ClientException.
  - reflexivity.
  - reflexivity.
  - reflexivity.
Defined.
